(** * change_authors.py: the identity-rewriting commit callback

    The repository is one Python function, [commit_callback], which a
    history-rewriting driver calls once per commit.  It reads and assigns
    attributes of the commit object it is handed.

    The embedding follows Python's object model as far as the function can
    observe it:
    - a commit object is its attribute dictionary, a finite map from
      attribute names to Python values;
    - reading an attribute that the object does not have raises
      [AttributeError]; assigning an attribute stores it;
    - [v == b"..."] is Python's equality against a [bytes] literal;
    - [a and b] evaluates [b] only when [a] is true;
    - the function mutates the object in place, so the object after the
      call is part of the result also when the call raises.

    The attributes hold built-in values ([pyval]); the module [Foreign]
    is the same callback over commits whose attributes may also hold
    objects of other classes, whose comparison can match or raise. *)

From Stdlib Require Import Strings.String Strings.Byte.
From stdpp Require Import gmap strings.

Local Open Scope string_scope.

(** ** Python values *)

(** A [bytes] object is a finite sequence of 8-bit values. *)
Abbreviation bytes := (list byte).

(** [b"..."]: the bytes of an ASCII literal. *)
Definition b (lit : string) : bytes := list_byte_of_string lit.

(** Byte-by-byte comparison of two byte sequences. *)
Fixpoint bytes_eqb (x y : bytes) : bool :=
  match x, y with
  | [], [] => true
  | x0 :: x', y0 :: y' => Byte.eqb x0 y0 && bytes_eqb x' y'
  | _, _ => false
  end.

(** The values an attribute of the commit object can hold.  The driver
    stores [bytes]; the other constructors are the values a field that is
    not well formed may hold. *)
Inductive pyval : Type :=
  | PyNone
  | PyBool (t : bool)
  | PyInt (z : Z)
  | PyStr (s : string)
  | PyBytes (x : bytes)
  | PyByteArray (x : bytes).

#[global] Instance byte_eq_dec : EqDecision byte := Byte.byte_eq_dec.

#[global] Instance pyval_eq_dec : EqDecision pyval.
Proof. solve_decision. Defined.

(** [v == lit] for a [bytes] literal [lit]: [bytes] and [bytearray] compare
    by content, every other type of value is unequal to a [bytes]. *)
Definition eq_bytes (v : pyval) (lit : bytes) : bool :=
  match v with
  | PyBytes x | PyByteArray x => bytes_eqb x lit
  | PyNone | PyBool _ | PyInt _ | PyStr _ => false
  end.

(** ** Objects, exceptions and the effect monad *)

(** An object is its attribute dictionary. *)
Abbreviation obj := (gmap string pyval).

Inductive exn : Type :=
  | AttributeError (name : string).

Inductive outcome (A : Type) : Type :=
  | Return (a : A)
  | Raise (e : exn).
Arguments Return {A} a.
Arguments Raise {A} e.

(** A computation on the commit object: it ends by returning or by
    raising, and in both cases leaves the object in some state. *)
Definition M (A : Type) : Type := obj -> outcome A * obj.

#[global] Instance M_ret : MRet M := fun A a commit => (Return a, commit).

#[global] Instance M_bind : MBind M := fun A B f m commit =>
  match m commit with
  | (Return a, commit') => f a commit'
  | (Raise e, commit') => (Raise e, commit')
  end.

(** [commit.name] *)
Definition getattr (name : string) : M pyval := fun commit =>
  match commit !! name with
  | Some v => (Return v, commit)
  | None => (Raise (AttributeError name), commit)
  end.

(** [commit.name = v] *)
Definition setattr (name : string) (v : pyval) : M unit := fun commit =>
  (Return tt, <[name := v]> commit).

(** [x and y] on truth values: [y] is evaluated only when [x] is true. *)
Definition and_ (x y : M bool) : M bool :=
  t ← x; if t : bool then y else mret false.

(** [if cond: body] without an [else]. *)
Definition if_ (cond : M bool) (body : M unit) : M unit :=
  t ← cond; if t : bool then body else mret tt.

(** ** The callback *)

Definition commit_callback : M unit :=
  (* Check both author email and name *)
  if_ (and_ (v ← getattr "author_email"; mret (eq_bytes v (b "andrew@caramel-code.com")))
            (v ← getattr "author_name"; mret (eq_bytes v (b "Andrew Hewitt"))))
      (setattr "author_email" (PyBytes (b "gigaelk@gmail.com"));;
       setattr "author_name" (PyBytes (b "GigaElk")));;
  (* Check both committer email and name *)
  if_ (and_ (v ← getattr "committer_email"; mret (eq_bytes v (b "andrew@caramel-code.com")))
            (v ← getattr "committer_name"; mret (eq_bytes v (b "Andrew Hewitt"))))
      (setattr "committer_email" (PyBytes (b "gigaelk@gmail.com"));;
       setattr "committer_name" (PyBytes (b "GigaElk"))).

(** ** Vocabulary of the properties *)

Definition legacy_name : bytes := b "Andrew Hewitt".
Definition legacy_email : bytes := b "andrew@caramel-code.com".
Definition canonical_name : bytes := b "GigaElk".
Definition canonical_email : bytes := b "gigaelk@gmail.com".

(** The four identity attributes of a commit record. *)
Definition identity_fields : list string :=
  ["author_name"; "author_email"; "committer_name"; "committer_email"].

(** A commit record, as the driver hands it over, has the four identity
    attributes; nothing is asked of their values or of other attributes. *)
Definition commit_record (commit : obj) : Prop :=
  Forall (fun name => is_Some (commit !! name)) identity_fields.

(** [commit.name == lit] holds: the attribute is there and its value is
    equal to the literal. *)
Definition field_is (commit : obj) (name : string) (lit : bytes) : bool :=
  match commit !! name with
  | Some v => eq_bytes v lit
  | None => false
  end.

(** Both attributes of a pair hold the legacy identity. *)
Definition legacy_pair (commit : obj) (email name : string) : bool :=
  field_is commit email legacy_email && field_is commit name legacy_name.

Definition legacy_author (commit : obj) : bool :=
  legacy_pair commit "author_email" "author_name".

Definition legacy_committer (commit : obj) : bool :=
  legacy_pair commit "committer_email" "committer_name".

(** The two blocks of [commit_callback] are the same statement at two
    pairs of attribute names; [rewrite_identity] is that statement, with
    the names as parameters (see [commit_callback_blocks]). *)
Definition rewrite_identity (email name : string) : M unit :=
  if_ (and_ (v ← getattr email; mret (eq_bytes v (b "andrew@caramel-code.com")))
            (v ← getattr name; mret (eq_bytes v (b "Andrew Hewitt"))))
      (setattr email (PyBytes (b "gigaelk@gmail.com"));;
       setattr name (PyBytes (b "GigaElk"))).

(** The object once a pair has been assigned the canonical identity. *)
Definition rewritten (email name : string) (commit : obj) : obj :=
  <[name := PyBytes canonical_name]> (<[email := PyBytes canonical_email]> commit).

(** The object after a block whose guard did not raise. *)
Definition rewrite_if (email name : string) (commit : obj) : obj :=
  if legacy_pair commit email name then rewritten email name commit else commit.

(** The object after the author block, and after the committer block. *)
Definition after_author (commit : obj) : obj :=
  rewrite_if "author_email" "author_name" commit.

Definition after_committer (commit : obj) : obj :=
  rewrite_if "committer_email" "committer_name" commit.

(** How the guard of a block ends: the email is read first, the name only
    when the email matched. *)
Definition guard_outcome (email name : string) (commit : obj) : outcome unit :=
  match commit !! email with
  | None => Raise (AttributeError email)
  | Some v =>
      if eq_bytes v legacy_email then
        match commit !! name with
        | None => Raise (AttributeError name)
        | Some _ => Return tt
        end
      else Return tt
  end.

(** A value that is not a well-formed identity: not a byte sequence, or
    the empty byte sequence. *)
Definition malformed (v : pyval) : bool :=
  match v with
  | PyBytes [] | PyByteArray [] => true
  | PyBytes (_ :: _) | PyByteArray (_ :: _) => false
  | PyNone | PyBool _ | PyInt _ | PyStr _ => true
  end.

(** ** Sample commit objects *)

Definition mk_commit (an ae cn ce : pyval) : obj :=
  {[ "author_name" := an; "author_email" := ae;
     "committer_name" := cn; "committer_email" := ce;
     "message" := PyBytes (b "Initial commit");
     "author_date" := PyBytes (b "1700000000 +0000") ]}.

(** Scenario 1 of the specification: both pairs are the legacy identity. *)
Definition commit_both : obj :=
  mk_commit (PyBytes (b "Andrew Hewitt")) (PyBytes (b "andrew@caramel-code.com"))
            (PyBytes (b "Andrew Hewitt")) (PyBytes (b "andrew@caramel-code.com")).

(** Scenario 2: legacy author, another committer. *)
Definition commit_author_only : obj :=
  mk_commit (PyBytes (b "Andrew Hewitt")) (PyBytes (b "andrew@caramel-code.com"))
            (PyBytes (b "Jane Doe")) (PyBytes (b "jane@example.com")).

(** The converse: another author, legacy committer. *)
Definition commit_committer_only : obj :=
  mk_commit (PyBytes (b "Jane Doe")) (PyBytes (b "jane@example.com"))
            (PyBytes (b "Andrew Hewitt")) (PyBytes (b "andrew@caramel-code.com")).

(** Scenario 3: the author name in lower case. *)
Definition commit_lowercase : obj :=
  mk_commit (PyBytes (b "andrew hewitt")) (PyBytes (b "andrew@caramel-code.com"))
            (PyBytes (b "Jane Doe")) (PyBytes (b "jane@example.com")).

(** Scenario 4: the legacy name with another email. *)
Definition commit_other_email : obj :=
  mk_commit (PyBytes (b "Andrew Hewitt")) (PyBytes (b "old2@caramel-code.com"))
            (PyBytes (b "Jane Doe")) (PyBytes (b "jane@example.com")).

(** The legacy email with another name. *)
Definition commit_other_name : obj :=
  mk_commit (PyBytes (b "A. Hewitt")) (PyBytes (b "andrew@caramel-code.com"))
            (PyBytes (b "Jane Doe")) (PyBytes (b "jane@example.com")).

(** Identity attributes that are there but not well formed. *)
Definition commit_malformed : obj :=
  mk_commit PyNone (PyBytes (b "andrew@caramel-code.com"))
            (PyBytes []) (PyStr "andrew@caramel-code.com").

(** An object without the attribute [author_email]; its committer is the
    legacy identity. *)
Definition commit_no_author_email : obj :=
  {[ "author_name" := PyBytes (b "Andrew Hewitt");
     "committer_name" := PyBytes (b "Andrew Hewitt");
     "committer_email" := PyBytes (b "andrew@caramel-code.com");
     "message" := PyBytes (b "Initial commit") ]}.

(** [commit_both] with another message: the same identity attributes. *)
Definition commit_both_reworded : obj :=
  <["message" := PyBytes (b "Second commit")]> commit_both.

(** A commit record as the driver builds it: the four identity attributes
    hold [bytes] objects. *)
Definition bytes_record (commit : obj) : Prop :=
  Forall (fun name => exists x, commit !! name = Some (PyBytes x)) identity_fields.

(** A legacy author on an object without the attribute [committer_email]. *)
Definition commit_no_committer_email : obj :=
  {[ "author_name" := PyBytes (b "Andrew Hewitt");
     "author_email" := PyBytes (b "andrew@caramel-code.com");
     "committer_name" := PyBytes (b "Jane Doe");
     "message" := PyBytes (b "Initial commit") ]}.

(** Another author email on an object without the attribute
    [author_name], and likewise for the committer. *)
Definition commit_no_names : obj :=
  {[ "author_email" := PyBytes (b "jane@example.com");
     "committer_email" := PyBytes (b "jane@example.com");
     "message" := PyBytes (b "Initial commit") ]}.

(** The legacy author email on an object without the attribute
    [author_name]; the committer is the legacy identity. *)
Definition commit_no_author_name : obj :=
  {[ "author_email" := PyBytes (b "andrew@caramel-code.com");
     "committer_name" := PyBytes (b "Andrew Hewitt");
     "committer_email" := PyBytes (b "andrew@caramel-code.com");
     "message" := PyBytes (b "Initial commit") ]}.

(** The same identity, not the legacy one, in both roles. *)
Definition commit_same_roles : obj :=
  mk_commit (PyBytes (b "Jane Doe")) (PyBytes (b "jane@example.com"))
            (PyBytes (b "Jane Doe")) (PyBytes (b "jane@example.com")).

(** ** Values of other classes

    [pyval] lists built-in kinds of value.  An attribute can also hold an
    object of another class: a [memoryview], an array, an instance of a
    class of the caller.  For such an object the test [v == lit] of an
    [if] is answered by the class's own [__eq__] (and the truth test of
    what it returns), which can give either truth value or raise.
    [Foreign] is the callback over commits whose attributes hold either
    kind of value; on built-in values it compares as [eq_bytes] does. *)
Module Foreign.

(** What the test [v == lit] gives for an object of another class. *)
Inductive answer : Type :=
  | Truth (t : bool)
  | Raises (cls : string).

Inductive value : Type :=
  | Plain (v : pyval)
  | Instance (cls : string) (eq : bytes -> answer).

Inductive exn : Type :=
  | AttributeError (name : string)
  | Raised (cls : string).

Inductive outcome (A : Type) : Type :=
  | Return (a : A)
  | Raise (e : exn).
Arguments Return {A} a.
Arguments Raise {A} e.

Definition M (A : Type) : Type :=
  gmap string value -> outcome A * gmap string value.

#[global] Instance M_ret : MRet M := fun A a commit => (Return a, commit).

#[global] Instance M_bind : MBind M := fun A B f m commit =>
  match m commit with
  | (Return a, commit') => f a commit'
  | (Raise e, commit') => (Raise e, commit')
  end.

(** [commit.name] *)
Definition getattr (name : string) : M value := fun commit =>
  match commit !! name with
  | Some v => (Return v, commit)
  | None => (Raise (AttributeError name), commit)
  end.

(** [commit.name = v] *)
Definition setattr (name : string) (v : value) : M unit := fun commit =>
  (Return tt, <[name := v]> commit).

Definition and_ (x y : M bool) : M bool :=
  t ← x; if t : bool then y else mret false.

Definition if_ (cond : M bool) (body : M unit) : M unit :=
  t ← cond; if t : bool then body else mret tt.

(** The test [v == lit] for a [bytes] literal [lit]. *)
Definition compare (v : value) (lit : bytes) : M bool := fun commit =>
  match v with
  | Plain p => (Return (eq_bytes p lit), commit)
  | Instance _ eq =>
      match eq lit with
      | Truth t => (Return t, commit)
      | Raises cls => (Raise (Raised cls), commit)
      end
  end.

Definition commit_callback : M unit :=
  (* Check both author email and name *)
  if_ (and_ (v ← getattr "author_email"; compare v (b "andrew@caramel-code.com"))
            (v ← getattr "author_name"; compare v (b "Andrew Hewitt")))
      (setattr "author_email" (Plain (PyBytes (b "gigaelk@gmail.com")));;
       setattr "author_name" (Plain (PyBytes (b "GigaElk"))));;
  (* Check both committer email and name *)
  if_ (and_ (v ← getattr "committer_email"; compare v (b "andrew@caramel-code.com"))
            (v ← getattr "committer_name"; compare v (b "Andrew Hewitt")))
      (setattr "committer_email" (Plain (PyBytes (b "gigaelk@gmail.com")));;
       setattr "committer_name" (Plain (PyBytes (b "GigaElk")))).

(** One block, with the attribute names as parameters. *)
Definition rewrite_identity (email name : string) : M unit :=
  if_ (and_ (v ← getattr email; compare v (b "andrew@caramel-code.com"))
            (v ← getattr name; compare v (b "Andrew Hewitt")))
      (setattr email (Plain (PyBytes (b "gigaelk@gmail.com")));;
       setattr name (Plain (PyBytes (b "GigaElk")))).

(** The identity attributes that are there hold built-in values: [None],
    a [bool], an [int], a [str], a [bytes] or a [bytearray]. *)
Definition plain_identity (commit : gmap string value) : Prop :=
  forall name v, name ∈ identity_fields ->
    commit !! name = Some v -> exists p, v = Plain p.

(** The four identity attributes are there and hold built-in values. *)
Definition plain_record (commit : gmap string value) : Prop :=
  Forall (fun name => exists p, commit !! name = Some (Plain p)) identity_fields.

(** [commit.name == lit] holds of a built-in value. *)
Definition field_is (commit : gmap string value) (name : string) (lit : bytes) : bool :=
  match commit !! name with
  | Some (Plain p) => eq_bytes p lit
  | Some (Instance _ _) | None => false
  end.

(** The built-in value, if it is one. *)
Definition plain_of (v : value) : option pyval :=
  match v with
  | Plain p => Some p
  | Instance _ _ => None
  end.

(** The attributes of a commit that hold built-in values. *)
Definition plain_part (commit : gmap string value) : obj := omap plain_of commit.

(** The commit after a block whose guard did not raise, when the pair
    holds built-in values. *)
Definition rewrite_if (email name : string) (commit : gmap string value) :
    gmap string value :=
  if legacy_pair (plain_part commit) email name
  then <[name := Plain (PyBytes canonical_name)]>
         (<[email := Plain (PyBytes canonical_email)]> commit)
  else commit.

(** A [memoryview] of a byte sequence: equal to the [bytes] it views. *)
Definition memoryview (x : bytes) : value :=
  Instance "memoryview" (fun lit => Truth (bytes_eqb x lit)).

(** An object whose comparison raises. *)
Definition strict : value :=
  Instance "Strict" (fun _ => Raises "ValueError").

(** A commit with the four identity attributes, whose [author_email] is an
    object whose comparison raises; the committer is the legacy identity. *)
Definition commit_strict : gmap string value :=
  <["author_email" := strict]> (Plain <$> commit_committer_only).

(** A commit whose author attributes are [memoryview]s of the legacy
    identity. *)
Definition commit_memoryview : gmap string value :=
  <["author_name" := memoryview (b "Andrew Hewitt")]>
    (<["author_email" := memoryview (b "andrew@caramel-code.com")]>
       (Plain <$> commit_committer_only)).

(** Identity attributes that are there but not well formed, and a message
    that is an object of another class. *)
Definition commit_malformed_fields : gmap string value :=
  <["message" := strict]> (Plain <$> commit_malformed).

(** No attribute [author_name] or [committer_name], emails that are not
    the legacy email, and a message that is an object of another class. *)
Definition commit_without_names : gmap string value :=
  <["message" := strict]> (Plain <$> commit_no_names).

(** The legacy author email without an attribute [author_name]. *)
Definition commit_without_author_name : gmap string value :=
  <["message" := strict]> (Plain <$> commit_no_author_name).

(** A legacy author, another committer, and a message that is an object of
    another class. *)
Definition commit_legacy_author : gmap string value :=
  <["message" := strict]> (Plain <$> commit_author_only).

End Foreign.

(** [Foreign.plain_identity], as a test. *)
Definition plain_identityb (commit : gmap string Foreign.value) : bool :=
  forallb (fun k => match commit !! k with
                    | Some (Foreign.Instance _ _) => false
                    | Some (Foreign.Plain _) | None => true
                    end) identity_fields.

(** An attribute that holds a built-in value, if it is there. *)
Definition plain_at (commit : gmap string Foreign.value) (k : string) : Prop :=
  forall v, commit !! k = Some v -> exists p, v = Foreign.Plain p.

(** An outcome of the callback on built-in values, as an outcome of the
    callback on values of either kind. *)
Definition lift_outcome (r : outcome unit) : Foreign.outcome unit :=
  match r with
  | Return a => Foreign.Return a
  | Raise (AttributeError name) => Foreign.Raise (Foreign.AttributeError name)
  end.

(** ** One block *)

Section Block.

Variables email name : string.
Hypothesis email_name : email ≠ name.

(** What a block does, by cases on what the two reads find. *)
Lemma rewrite_identity_eval (commit : obj) :
  rewrite_identity email name commit =
    (guard_outcome email name commit, rewrite_if email name commit).
Proof.
  unfold rewrite_identity, if_, and_, getattr, setattr, guard_outcome,
    rewrite_if, legacy_pair, field_is, mbind, M_bind, mret, M_ret.
  destruct (commit !! email) as [ve|]; [|reflexivity].
  fold legacy_email legacy_name.
  destruct (eq_bytes ve legacy_email); [|reflexivity].
  destruct (commit !! name) as [vn|]; [|reflexivity].
  destruct (eq_bytes vn legacy_name); reflexivity.
Qed.

Lemma rewritten_email (commit : obj) :
  rewritten email name commit !! email = Some (PyBytes canonical_email).
Proof.
  unfold rewritten.
  rewrite lookup_insert_ne by (intros E; apply email_name; symmetry; exact E).
  apply lookup_insert_eq.
Qed.

Lemma rewritten_name (commit : obj) :
  rewritten email name commit !! name = Some (PyBytes canonical_name).
Proof. unfold rewritten. apply lookup_insert_eq. Qed.

Lemma rewritten_other (commit : obj) (k : string) :
  k ≠ email -> k ≠ name -> rewritten email name commit !! k = commit !! k.
Proof.
  intros Hke Hkn. unfold rewritten.
  rewrite !lookup_insert_ne by congruence. reflexivity.
Qed.

(** The guard reads nothing but its two attributes. *)
Lemma legacy_pair_ext (c1 c2 : obj) :
  c1 !! email = c2 !! email -> c1 !! name = c2 !! name ->
  legacy_pair c1 email name = legacy_pair c2 email name.
Proof. unfold legacy_pair, field_is. intros -> ->. reflexivity. Qed.

Lemma guard_outcome_ext (c1 c2 : obj) :
  c1 !! email = c2 !! email -> c1 !! name = c2 !! name ->
  guard_outcome email name c1 = guard_outcome email name c2.
Proof. unfold guard_outcome. intros -> ->. reflexivity. Qed.

Lemma legacy_pair_true (commit : obj) :
  legacy_pair commit email name = true <->
  field_is commit email legacy_email = true /\
  field_is commit name legacy_name = true.
Proof. unfold legacy_pair. apply andb_true_iff. Qed.

Lemma field_is_Some (commit : obj) (k : string) (lit : bytes) :
  field_is commit k lit = true ->
  exists v, commit !! k = Some v /\ eq_bytes v lit = true.
Proof.
  unfold field_is. destruct (commit !! k) as [v|]; [|discriminate].
  intros Hv. exists v. split; [reflexivity | exact Hv].
Qed.

(** The canonical identity is not the legacy one. *)
Lemma legacy_pair_rewritten (commit : obj) :
  legacy_pair (rewritten email name commit) email name = false.
Proof.
  unfold legacy_pair, field_is. rewrite rewritten_email. reflexivity.
Qed.

Lemma rewrite_if_legacy (commit : obj) :
  legacy_pair commit email name = true ->
  rewrite_if email name commit = rewritten email name commit.
Proof. unfold rewrite_if. intros ->. reflexivity. Qed.

Lemma rewrite_if_not_legacy (commit : obj) :
  legacy_pair commit email name = false ->
  rewrite_if email name commit = commit.
Proof. unfold rewrite_if. intros ->. reflexivity. Qed.

Lemma rewrite_if_other (commit : obj) (k : string) :
  k ≠ email -> k ≠ name -> rewrite_if email name commit !! k = commit !! k.
Proof.
  intros Hke Hkn. unfold rewrite_if.
  destruct (legacy_pair commit email name); [|reflexivity].
  apply rewritten_other; assumption.
Qed.

Lemma legacy_pair_rewrite_if (commit : obj) :
  legacy_pair (rewrite_if email name commit) email name = false.
Proof.
  unfold rewrite_if.
  destruct (legacy_pair commit email name) eqn:Hl;
    [apply legacy_pair_rewritten | exact Hl].
Qed.

Lemma rewrite_if_idem (commit : obj) :
  rewrite_if email name (rewrite_if email name commit) =
  rewrite_if email name commit.
Proof. apply rewrite_if_not_legacy, legacy_pair_rewrite_if. Qed.

(** A guard that raises has not matched. *)
Lemma guard_outcome_raise (commit : obj) (e : exn) :
  guard_outcome email name commit = Raise e ->
  legacy_pair commit email name = false.
Proof.
  unfold guard_outcome, legacy_pair, field_is.
  destruct (commit !! email) as [ve|]; [|reflexivity].
  destruct (eq_bytes ve legacy_email); [|reflexivity].
  destruct (commit !! name) as [vn|]; [discriminate|reflexivity].
Qed.

Lemma guard_outcome_present (commit : obj) :
  is_Some (commit !! email) -> is_Some (commit !! name) ->
  guard_outcome email name commit = Return tt.
Proof.
  intros [ve Hve] [vn Hvn]. unfold guard_outcome. rewrite Hve, Hvn.
  destruct (eq_bytes ve legacy_email); reflexivity.
Qed.

(** Exactly when the guard returns. *)
Lemma guard_outcome_return (commit : obj) :
  guard_outcome email name commit = Return tt <->
  is_Some (commit !! email) /\
  (field_is commit email legacy_email = true -> is_Some (commit !! name)).
Proof.
  unfold guard_outcome, field_is.
  destruct (commit !! email) as [ve|].
  - destruct (eq_bytes ve legacy_email).
    + destruct (commit !! name) as [vn|].
      * split; [intros _; split; [eexists|intros _; eexists]|]; reflexivity.
      * split; [discriminate|]. intros [_ Hn].
        destruct (Hn eq_refl) as [? ?]; discriminate.
    + split; [intros _; split; [eexists; reflexivity | discriminate]|reflexivity].
  - split; [discriminate|]. intros [[? ?] _]; discriminate.
Qed.

(** The outcome of the guard is the same on the object the block leaves. *)
Lemma guard_outcome_rewrite_if (commit : obj) :
  guard_outcome email name (rewrite_if email name commit) =
  guard_outcome email name commit.
Proof.
  unfold rewrite_if.
  destruct (legacy_pair commit email name) eqn:Hl; [|reflexivity].
  apply legacy_pair_true in Hl as [He Hn].
  apply field_is_Some in He as (ve & He & Hve).
  apply field_is_Some in Hn as (vn & Hn & _).
  unfold guard_outcome.
  rewrite rewritten_email, He, Hn, Hve. reflexivity.
Qed.

(** A block neither adds nor removes an attribute. *)
Lemma rewrite_if_dom (commit : obj) :
  dom (rewrite_if email name commit) = dom commit.
Proof.
  unfold rewrite_if.
  destruct (legacy_pair commit email name) eqn:Hl; [|reflexivity].
  apply legacy_pair_true in Hl as [He Hn].
  apply field_is_Some in He as (ve & He & _).
  apply field_is_Some in Hn as (vn & Hn & _).
  unfold rewritten.
  rewrite dom_insert_lookup_L.
  - apply dom_insert_lookup_L. eexists; exact He.
  - rewrite lookup_insert_ne by exact email_name. eexists; exact Hn.
Qed.

(** An attribute the block changed is one of its pair, and the pair held
    the legacy identity. *)
Lemma rewrite_if_changed (commit : obj) (k : string) :
  rewrite_if email name commit !! k ≠ commit !! k ->
  (k = email \/ k = name) /\ legacy_pair commit email name = true.
Proof.
  intros Hk.
  destruct (legacy_pair commit email name) eqn:Hl.
  - split; [|reflexivity].
    destruct (decide (k = email)) as [|Hke]; [left; assumption|].
    destruct (decide (k = name)) as [|Hkn]; [right; assumption|].
    exfalso. apply Hk. apply rewrite_if_other; assumption.
  - exfalso. apply Hk. rewrite rewrite_if_not_legacy by exact Hl. reflexivity.
Qed.

(** On a legacy pair the block assigns both attributes, and both
    assignments change the attribute. *)
Lemma rewrite_if_fields_legacy (commit : obj) :
  legacy_pair commit email name = true ->
  rewrite_if email name commit !! email = Some (PyBytes canonical_email) /\
  rewrite_if email name commit !! name = Some (PyBytes canonical_name).
Proof.
  intros Hl. rewrite rewrite_if_legacy by exact Hl.
  split; [apply rewritten_email | apply rewritten_name].
Qed.

Lemma rewrite_if_fields_changed (commit : obj) :
  legacy_pair commit email name = true ->
  rewrite_if email name commit !! email ≠ commit !! email /\
  rewrite_if email name commit !! name ≠ commit !! name.
Proof.
  intros Hl. destruct (rewrite_if_fields_legacy commit Hl) as [-> ->].
  apply legacy_pair_true in Hl as [He Hn].
  apply field_is_Some in He as (ve & -> & Hve).
  apply field_is_Some in Hn as (vn & -> & Hvn).
  split; intros [= <-]; discriminate.
Qed.

Lemma rewrite_if_fields_not_legacy (commit : obj) :
  legacy_pair commit email name = false ->
  rewrite_if email name commit !! email = commit !! email /\
  rewrite_if email name commit !! name = commit !! name.
Proof. intros Hl. rewrite rewrite_if_not_legacy by exact Hl. split; reflexivity. Qed.

(** What the block leaves in an attribute is decided by what it found in
    that attribute and in its pair. *)
Lemma rewrite_if_ext (c1 c2 : obj) (k : string) :
  c1 !! email = c2 !! email -> c1 !! name = c2 !! name ->
  c1 !! k = c2 !! k ->
  rewrite_if email name c1 !! k = rewrite_if email name c2 !! k.
Proof.
  intros He Hn Hk. unfold rewrite_if.
  rewrite (legacy_pair_ext c1 c2 He Hn).
  destruct (legacy_pair c2 email name); [|exact Hk].
  destruct (decide (k = name)) as [->|Hkn];
    [rewrite !rewritten_name; reflexivity|].
  destruct (decide (k = email)) as [->|Hke];
    [rewrite !rewritten_email; reflexivity|].
  rewrite !rewritten_other by assumption. exact Hk.
Qed.

(** A value that is not well formed is not the legacy identity. *)
Lemma malformed_not_legacy (v : pyval) :
  malformed v = true ->
  eq_bytes v legacy_email = false /\ eq_bytes v legacy_name = false.
Proof. destruct v as [| | | |[|]|[|]]; (discriminate || (split; reflexivity)). Qed.

Lemma malformed_field_not_legacy (commit : obj) (v : pyval) :
  (commit !! email = Some v \/ commit !! name = Some v) ->
  malformed v = true ->
  legacy_pair commit email name = false.
Proof.
  intros Hk [Hve Hvn]%malformed_not_legacy. unfold legacy_pair, field_is.
  destruct Hk as [-> | ->].
  - rewrite Hve. reflexivity.
  - rewrite Hvn. apply andb_false_r.
Qed.

End Block.

(** ** The two blocks in sequence *)

(** Distinct attribute names. *)
Ltac attr_neq := solve [discriminate | congruence].

Lemma commit_callback_blocks :
  commit_callback =
    (rewrite_identity "author_email" "author_name";;
     rewrite_identity "committer_email" "committer_name").
Proof. reflexivity. Qed.

(** The committer block reads the object the author block left, and finds
    in it the committer attributes of the object the call was given. *)
Lemma after_author_committer_fields (commit : obj) :
  after_author commit !! "committer_email" = commit !! "committer_email" /\
  after_author commit !! "committer_name" = commit !! "committer_name".
Proof. split; apply rewrite_if_other; attr_neq. Qed.

Lemma after_committer_author_fields (commit : obj) :
  after_committer commit !! "author_email" = commit !! "author_email" /\
  after_committer commit !! "author_name" = commit !! "author_name".
Proof. split; apply rewrite_if_other; attr_neq. Qed.

Lemma legacy_committer_after_author (commit : obj) :
  legacy_committer (after_author commit) = legacy_committer commit.
Proof.
  destruct (after_author_committer_fields commit) as [He Hn].
  apply legacy_pair_ext; assumption.
Qed.

Lemma legacy_author_after_committer (commit : obj) :
  legacy_author (after_committer commit) = legacy_author commit.
Proof.
  destruct (after_committer_author_fields commit) as [He Hn].
  apply legacy_pair_ext; assumption.
Qed.

(** The call, by cases on how the author guard ends. *)
Lemma commit_callback_eval (commit : obj) :
  commit_callback commit =
    match guard_outcome "author_email" "author_name" commit with
    | Return _ =>
        (guard_outcome "committer_email" "committer_name" commit,
         after_committer (after_author commit))
    | Raise e => (Raise e, commit)
    end.
Proof.
  rewrite commit_callback_blocks. unfold mbind, M_bind.
  rewrite rewrite_identity_eval.
  destruct (guard_outcome "author_email" "author_name" commit) as [[]|e] eqn:Hg.
  - rewrite rewrite_identity_eval. f_equal.
    destruct (after_author_committer_fields commit) as [He Hn].
    apply guard_outcome_ext; assumption.
  - apply guard_outcome_raise in Hg.
    rewrite rewrite_if_not_legacy by exact Hg. reflexivity.
Qed.

(** The object after the call, whether it returned or raised. *)
Lemma commit_callback_state (commit : obj) :
  snd (commit_callback commit) = after_committer (after_author commit) \/
  snd (commit_callback commit) = after_author commit.
Proof.
  rewrite commit_callback_eval.
  destruct (guard_outcome "author_email" "author_name" commit) as [[]|e] eqn:Hg.
  - left. reflexivity.
  - right. apply guard_outcome_raise in Hg.
    unfold after_author. rewrite rewrite_if_not_legacy by exact Hg. reflexivity.
Qed.

(** Exactly when the call returns: each email is there, and each name is
    there when its email is the legacy one. *)
Lemma commit_callback_returns (commit : obj) :
  fst (commit_callback commit) = Return tt <->
  guard_outcome "author_email" "author_name" commit = Return tt /\
  guard_outcome "committer_email" "committer_name" commit = Return tt.
Proof.
  rewrite commit_callback_eval.
  destruct (guard_outcome "author_email" "author_name" commit) as [[]|e]; simpl.
  - split; [intros H; split; [reflexivity | exact H] | intros [_ H]; exact H].
  - split; [discriminate | intros [H _]; discriminate].
Qed.

Lemma commit_record_fields (commit : obj) :
  commit_record commit ->
  is_Some (commit !! "author_name") /\ is_Some (commit !! "author_email") /\
  is_Some (commit !! "committer_name") /\ is_Some (commit !! "committer_email").
Proof.
  unfold commit_record, identity_fields. intros H.
  repeat (apply Forall_cons in H as [? H]). auto.
Qed.

(** On a commit record every read finds its attribute: the call returns. *)
Lemma commit_record_returns (commit : obj) :
  commit_record commit ->
  commit_callback commit = (Return tt, after_committer (after_author commit)).
Proof.
  intros (Han & Hae & Hcn & Hce)%commit_record_fields.
  rewrite commit_callback_eval.
  rewrite (guard_outcome_present "author_email" "author_name") by assumption.
  rewrite (guard_outcome_present "committer_email" "committer_name") by assumption.
  reflexivity.
Qed.


(** The author attributes after the call are those the author block left:
    the committer block does not assign them, and a committer guard that
    raises comes after the author block. *)
Lemma callback_author_fields (commit : obj) :
  snd (commit_callback commit) !! "author_email"
    = after_author commit !! "author_email" /\
  snd (commit_callback commit) !! "author_name"
    = after_author commit !! "author_name".
Proof.
  destruct (commit_callback_state commit) as [-> | ->].
  - apply after_committer_author_fields.
  - split; reflexivity.
Qed.

(** The committer attributes after a call whose author guard returned are
    those the committer block leaves, run on the given object. *)
Lemma callback_committer_fields (commit : obj) :
  guard_outcome "author_email" "author_name" commit = Return tt ->
  snd (commit_callback commit) !! "committer_email"
    = after_committer commit !! "committer_email" /\
  snd (commit_callback commit) !! "committer_name"
    = after_committer commit !! "committer_name".
Proof.
  intros Hg. rewrite commit_callback_eval, Hg. cbn [snd].
  destruct (after_author_committer_fields commit) as [He Hn].
  split; apply rewrite_if_ext; first [assumption | attr_neq].
Qed.

(** A call whose author guard raises leaves the object as it was. *)
Lemma callback_author_raise (commit : obj) (e : exn) :
  guard_outcome "author_email" "author_name" commit = Raise e ->
  commit_callback commit = (Raise e, commit).
Proof. intros Hg. rewrite commit_callback_eval, Hg. reflexivity. Qed.

(** The first read of the call is [commit.author_email]: without that
    attribute the call raises at once. *)
Lemma callback_absent_author_email (commit : obj) :
  commit !! "author_email" = None ->
  commit_callback commit = (Raise (AttributeError "author_email"), commit).
Proof.
  intros Hnone. apply callback_author_raise.
  unfold guard_outcome. rewrite Hnone. reflexivity.
Qed.

(** The committer attributes of a pair that is not the legacy identity are
    left as they were, however the call ends. *)
Lemma callback_committer_not_legacy (commit : obj) :
  legacy_committer commit = false ->
  snd (commit_callback commit) !! "committer_email" = commit !! "committer_email" /\
  snd (commit_callback commit) !! "committer_name" = commit !! "committer_name".
Proof.
  intros Hl.
  destruct (guard_outcome "author_email" "author_name" commit) as [[]|e] eqn:Hg.
  - destruct (callback_committer_fields commit Hg) as [-> ->].
    apply rewrite_if_fields_not_legacy. exact Hl.
  - rewrite (callback_author_raise commit e Hg). split; reflexivity.
Qed.

Lemma callback_author_not_legacy (commit : obj) :
  legacy_author commit = false ->
  snd (commit_callback commit) !! "author_email" = commit !! "author_email" /\
  snd (commit_callback commit) !! "author_name" = commit !! "author_name".
Proof.
  intros Hl. destruct (callback_author_fields commit) as [-> ->].
  apply rewrite_if_fields_not_legacy. exact Hl.
Qed.

Lemma callback_author_legacy (commit : obj) :
  legacy_author commit = true ->
  snd (commit_callback commit) !! "author_email" = Some (PyBytes canonical_email) /\
  snd (commit_callback commit) !! "author_name" = Some (PyBytes canonical_name).
Proof.
  intros Hl. destruct (callback_author_fields commit) as [-> ->].
  apply rewrite_if_fields_legacy; [attr_neq | exact Hl].
Qed.

Lemma callback_committer_legacy (commit : obj) :
  guard_outcome "author_email" "author_name" commit = Return tt ->
  legacy_committer commit = true ->
  snd (commit_callback commit) !! "committer_email" = Some (PyBytes canonical_email) /\
  snd (commit_callback commit) !! "committer_name" = Some (PyBytes canonical_name).
Proof.
  intros Hg Hl. destruct (callback_committer_fields commit Hg) as [-> ->].
  apply rewrite_if_fields_legacy; [attr_neq | exact Hl].
Qed.

(** An attribute outside the two pairs is assigned by neither block. *)
Lemma callback_other_fields (commit : obj) (k : string) :
  k ∉ identity_fields ->
  snd (commit_callback commit) !! k = commit !! k.
Proof.
  unfold identity_fields. rewrite !not_elem_of_cons.
  intros (Han & Hae & Hcn & Hce & _).
  destruct (commit_callback_state commit) as [-> | ->];
    unfold after_committer, after_author;
    rewrite !rewrite_if_other by assumption; reflexivity.
Qed.

Lemma commit_record_author_guard (commit : obj) :
  commit_record commit ->
  guard_outcome "author_email" "author_name" commit = Return tt.
Proof.
  intros (Han & Hae & _)%commit_record_fields.
  apply guard_outcome_present; assumption.
Qed.

Lemma commit_record_mk_commit (an ae cn ce : pyval) :
  commit_record (mk_commit an ae cn ce).
Proof.
  unfold commit_record, identity_fields, mk_commit.
  repeat apply Forall_cons_2; [..|apply Forall_nil_2]; eexists; reflexivity.
Defined.

(** ** The sample commits, run *)

Example run_commit_both :
  commit_callback commit_both =
    (Return tt,
     mk_commit (PyBytes (b "GigaElk")) (PyBytes (b "gigaelk@gmail.com"))
               (PyBytes (b "GigaElk")) (PyBytes (b "gigaelk@gmail.com"))).
Proof. vm_compute. reflexivity. Qed.

Example run_commit_author_only :
  commit_callback commit_author_only =
    (Return tt,
     mk_commit (PyBytes (b "GigaElk")) (PyBytes (b "gigaelk@gmail.com"))
               (PyBytes (b "Jane Doe")) (PyBytes (b "jane@example.com"))).
Proof. vm_compute. reflexivity. Qed.

Example run_commit_lowercase :
  commit_callback commit_lowercase = (Return tt, commit_lowercase).
Proof. vm_compute. reflexivity. Qed.

Example run_commit_other_email :
  commit_callback commit_other_email = (Return tt, commit_other_email).
Proof. vm_compute. reflexivity. Qed.

Example run_commit_other_name :
  commit_callback commit_other_name = (Return tt, commit_other_name).
Proof. vm_compute. reflexivity. Qed.

Example run_commit_malformed :
  commit_callback commit_malformed = (Return tt, commit_malformed).
Proof. vm_compute. reflexivity. Qed.

Example run_commit_no_author_email :
  commit_callback commit_no_author_email =
    (Raise (AttributeError "author_email"), commit_no_author_email).
Proof. vm_compute. reflexivity. Qed.

(** ** The properties of the specification *)

(** C1. A commit whose [author_name] is equal to [b"Andrew Hewitt"] and whose
    [author_email] is equal to [b"andrew@caramel-code.com"] has, after one
    call of [commit_callback], [author_name = b"GigaElk"] and
    [author_email = b"gigaelk@gmail.com"].  The author block runs first, so
    this holds of the object the call leaves whatever the committer block
    does afterwards. *)
Theorem author_pair_rewritten (commit : obj) :
  field_is commit "author_name" legacy_name = true ->
  field_is commit "author_email" legacy_email = true ->
  let commit' := snd (commit_callback commit) in
  commit' !! "author_name" = Some (PyBytes canonical_name) /\
  commit' !! "author_email" = Some (PyBytes canonical_email).
Proof.
  intros Hn He commit'. subst commit'.
  assert (Hl : legacy_author commit = true)
    by (apply legacy_pair_true; split; assumption).
  destruct (callback_author_legacy commit Hl) as [He' Hn'].
  split; assumption.
Qed.

Lemma author_pair_rewritten_witness :
  snd (commit_callback commit_author_only) !! "author_name"
    = Some (PyBytes (b "GigaElk")) /\
  snd (commit_callback commit_author_only) !! "author_email"
    = Some (PyBytes (b "gigaelk@gmail.com")).
Proof.
  apply (author_pair_rewritten commit_author_only); reflexivity.
Defined.

(** C2. A commit record whose [committer_name] is equal to
    [b"Andrew Hewitt"] and whose [committer_email] is equal to
    [b"andrew@caramel-code.com"] has, after one call of [commit_callback],
    [committer_name = b"GigaElk"] and [committer_email = b"gigaelk@gmail.com"];
    the call returns. *)
Theorem committer_pair_rewritten (commit : obj) :
  commit_record commit ->
  field_is commit "committer_name" legacy_name = true ->
  field_is commit "committer_email" legacy_email = true ->
  fst (commit_callback commit) = Return tt /\
  let commit' := snd (commit_callback commit) in
  commit' !! "committer_name" = Some (PyBytes canonical_name) /\
  commit' !! "committer_email" = Some (PyBytes canonical_email).
Proof.
  intros Hrec Hn He.
  split; [rewrite (commit_record_returns commit Hrec); reflexivity|].
  intros commit'. subst commit'.
  assert (Hl : legacy_committer commit = true)
    by (apply legacy_pair_true; split; assumption).
  destruct (callback_committer_legacy commit
              (commit_record_author_guard commit Hrec) Hl) as [He' Hn'].
  split; assumption.
Qed.

Lemma committer_pair_rewritten_witness :
  fst (commit_callback commit_committer_only) = Return tt /\
  snd (commit_callback commit_committer_only) !! "committer_name"
    = Some (PyBytes (b "GigaElk")) /\
  snd (commit_callback commit_committer_only) !! "committer_email"
    = Some (PyBytes (b "gigaelk@gmail.com")).
Proof.
  apply (committer_pair_rewritten commit_committer_only).
  - apply commit_record_mk_commit.
  - reflexivity.
  - reflexivity.
Defined.

(** C3. When [author_name] and [author_email] are not both equal to the
    legacy pair (one of the two comparisons fails: another email, another
    name, a name in another case), a call of [commit_callback] leaves
    [author_name] and [author_email] as they were; and the same for
    [committer_name] and [committer_email]. *)
Theorem non_matching_pair_unchanged (commit : obj) :
  let commit' := snd (commit_callback commit) in
  (field_is commit "author_name" legacy_name = false \/
   field_is commit "author_email" legacy_email = false ->
   commit' !! "author_name" = commit !! "author_name" /\
   commit' !! "author_email" = commit !! "author_email") /\
  (field_is commit "committer_name" legacy_name = false \/
   field_is commit "committer_email" legacy_email = false ->
   commit' !! "committer_name" = commit !! "committer_name" /\
   commit' !! "committer_email" = commit !! "committer_email").
Proof.
  intros commit'. subst commit'. split; intros Hno.
  - assert (Hl : legacy_author commit = false).
    { unfold legacy_author, legacy_pair. apply andb_false_iff.
      destruct Hno; [right | left]; assumption. }
    destruct (callback_author_not_legacy commit Hl). split; assumption.
  - assert (Hl : legacy_committer commit = false).
    { unfold legacy_committer, legacy_pair. apply andb_false_iff.
      destruct Hno; [right | left]; assumption. }
    destruct (callback_committer_not_legacy commit Hl). split; assumption.
Qed.

(** The three partial matches the claim names, on the author pair, and a
    committer that is someone else. *)
Lemma non_matching_pair_unchanged_witness :
  (snd (commit_callback commit_other_email) !! "author_name"
     = Some (PyBytes (b "Andrew Hewitt")) /\
   snd (commit_callback commit_other_email) !! "author_email"
     = Some (PyBytes (b "old2@caramel-code.com"))) /\
  (snd (commit_callback commit_other_name) !! "author_name"
     = Some (PyBytes (b "A. Hewitt")) /\
   snd (commit_callback commit_other_name) !! "author_email"
     = Some (PyBytes (b "andrew@caramel-code.com"))) /\
  (snd (commit_callback commit_lowercase) !! "author_name"
     = Some (PyBytes (b "andrew hewitt")) /\
   snd (commit_callback commit_lowercase) !! "author_email"
     = Some (PyBytes (b "andrew@caramel-code.com"))) /\
  (snd (commit_callback commit_lowercase) !! "committer_name"
     = Some (PyBytes (b "Jane Doe")) /\
   snd (commit_callback commit_lowercase) !! "committer_email"
     = Some (PyBytes (b "jane@example.com"))).
Proof.
  destruct (non_matching_pair_unchanged commit_other_email) as [Hemail _].
  destruct (non_matching_pair_unchanged commit_other_name) as [Hname _].
  destruct (non_matching_pair_unchanged commit_lowercase) as [Hcase Hcommitter].
  split; [apply Hemail; right; reflexivity|].
  split; [apply Hname; left; reflexivity|].
  split; [apply Hcase; left; reflexivity|].
  apply Hcommitter; left; reflexivity.
Defined.

(** C4. The author rewrite and the committer rewrite are independent.  On
    commit records, what the call leaves in the committer attributes is
    decided by the committer attributes alone, and what it leaves in the
    author attributes by the author attributes alone.  In particular: a
    legacy author with another committer leaves the committer attributes as
    they were, a legacy committer with another author leaves the author
    attributes as they were, and when both pairs are the legacy identity
    both are rewritten by the same call. *)
Theorem author_committer_independent (c1 c2 : obj) :
  commit_record c1 -> commit_record c2 ->
  let c1' := snd (commit_callback c1) in
  let c2' := snd (commit_callback c2) in
  (c1 !! "committer_name" = c2 !! "committer_name" ->
   c1 !! "committer_email" = c2 !! "committer_email" ->
   c1' !! "committer_name" = c2' !! "committer_name" /\
   c1' !! "committer_email" = c2' !! "committer_email") /\
  (c1 !! "author_name" = c2 !! "author_name" ->
   c1 !! "author_email" = c2 !! "author_email" ->
   c1' !! "author_name" = c2' !! "author_name" /\
   c1' !! "author_email" = c2' !! "author_email") /\
  (legacy_author c1 = true -> legacy_committer c1 = false ->
   c1' !! "author_name" = Some (PyBytes canonical_name) /\
   c1' !! "author_email" = Some (PyBytes canonical_email) /\
   c1' !! "committer_name" = c1 !! "committer_name" /\
   c1' !! "committer_email" = c1 !! "committer_email") /\
  (legacy_committer c1 = true -> legacy_author c1 = false ->
   c1' !! "committer_name" = Some (PyBytes canonical_name) /\
   c1' !! "committer_email" = Some (PyBytes canonical_email) /\
   c1' !! "author_name" = c1 !! "author_name" /\
   c1' !! "author_email" = c1 !! "author_email") /\
  (legacy_author c1 = true -> legacy_committer c1 = true ->
   c1' !! "author_name" = Some (PyBytes canonical_name) /\
   c1' !! "author_email" = Some (PyBytes canonical_email) /\
   c1' !! "committer_name" = Some (PyBytes canonical_name) /\
   c1' !! "committer_email" = Some (PyBytes canonical_email)).
Proof.
  intros Hrec1 Hrec2 c1' c2'. subst c1' c2'.
  pose proof (commit_record_author_guard c1 Hrec1) as Hg1.
  pose proof (commit_record_author_guard c2 Hrec2) as Hg2.
  split; [|split; [|split; [|split]]].
  - intros Hn He.
    destruct (callback_committer_fields c1 Hg1) as [-> ->].
    destruct (callback_committer_fields c2 Hg2) as [-> ->].
    unfold after_committer.
    split; apply rewrite_if_ext; first [assumption | attr_neq].
  - intros Hn He.
    destruct (callback_author_fields c1) as [-> ->].
    destruct (callback_author_fields c2) as [-> ->].
    unfold after_author.
    split; apply rewrite_if_ext; first [assumption | attr_neq].
  - intros Ha Hc.
    destruct (callback_author_legacy c1 Ha) as [-> ->].
    destruct (callback_committer_not_legacy c1 Hc) as [-> ->].
    repeat split.
  - intros Hc Ha.
    destruct (callback_committer_legacy c1 Hg1 Hc) as [-> ->].
    destruct (callback_author_not_legacy c1 Ha) as [-> ->].
    repeat split.
  - intros Ha Hc.
    destruct (callback_author_legacy c1 Ha) as [-> ->].
    destruct (callback_committer_legacy c1 Hg1 Hc) as [-> ->].
    repeat split.
Qed.

(** Two commits with the same committer and different authors, one of them
    the legacy author. *)
Lemma author_committer_independent_witness :
  (snd (commit_callback commit_author_only) !! "committer_name"
     = snd (commit_callback commit_lowercase) !! "committer_name" /\
   snd (commit_callback commit_author_only) !! "committer_email"
     = snd (commit_callback commit_lowercase) !! "committer_email") /\
  (snd (commit_callback commit_author_only) !! "author_name"
     = Some (PyBytes (b "GigaElk")) /\
   snd (commit_callback commit_author_only) !! "author_email"
     = Some (PyBytes (b "gigaelk@gmail.com")) /\
   snd (commit_callback commit_author_only) !! "committer_name"
     = Some (PyBytes (b "Jane Doe")) /\
   snd (commit_callback commit_author_only) !! "committer_email"
     = Some (PyBytes (b "jane@example.com"))).
Proof.
  destruct (author_committer_independent commit_author_only commit_lowercase
              (commit_record_mk_commit _ _ _ _) (commit_record_mk_commit _ _ _ _))
    as (Hcommitter & _ & Hauthor & _ & _).
  split.
  - apply Hcommitter; reflexivity.
  - apply Hauthor; reflexivity.
Defined.

(** C5. [commit_callback] is idempotent: a second call ends as the first
    did and leaves the object as the first call left it.  The second call
    assigns nothing, because the canonical values are not the legacy
    values. *)
Theorem commit_callback_idempotent (commit : obj) :
  let once := commit_callback commit in
  commit_callback (snd once) = once /\
  eq_bytes (PyBytes canonical_name) legacy_name = false /\
  eq_bytes (PyBytes canonical_email) legacy_email = false.
Proof.
  intros once. subst once.
  split; [|split; reflexivity].
  - rewrite (commit_callback_eval commit).
    destruct (guard_outcome "author_email" "author_name" commit)
      as [[]|e] eqn:Hg; cbn [snd].
    + rewrite commit_callback_eval.
      destruct (after_committer_author_fields (after_author commit)) as [He Hn].
      rewrite (guard_outcome_ext "author_email" "author_name" _ _ He Hn).
      unfold after_author at 1.
      rewrite guard_outcome_rewrite_if by attr_neq. rewrite Hg.
      f_equal.
      * unfold after_committer. rewrite guard_outcome_rewrite_if by attr_neq.
        destruct (after_author_committer_fields commit) as [He' Hn'].
        apply guard_outcome_ext; assumption.
      * assert (Hl : legacy_author (after_committer (after_author commit)) = false).
        { rewrite legacy_author_after_committer.
          apply legacy_pair_rewrite_if. attr_neq. }
        unfold after_author at 1. rewrite rewrite_if_not_legacy by exact Hl.
        apply rewrite_if_idem. attr_neq.
    + rewrite commit_callback_eval, Hg. reflexivity.
Qed.

(** C6. [commit_callback] changes at most the four attributes
    [author_name], [author_email], [committer_name] and [committer_email],
    and each of them only when its pair held the legacy identity; every
    other attribute of the commit (message, dates, parents, ...) is left as
    it was, and no attribute is added or removed.  The object is the only
    state a computation in [M] has. *)
Theorem commit_callback_frame (commit : obj) :
  let commit' := snd (commit_callback commit) in
  (forall k, k ∉ identity_fields -> commit' !! k = commit !! k) /\
  (forall k, commit' !! k ≠ commit !! k ->
     (k = "author_name" \/ k = "author_email") /\ legacy_author commit = true \/
     (k = "committer_name" \/ k = "committer_email") /\
       legacy_committer commit = true) /\
  dom commit' = dom commit.
Proof.
  intros commit'. subst commit'.
  split; [intros k Hk; apply callback_other_fields; exact Hk|].
  assert (Hauthor : forall k, after_author commit !! k ≠ commit !! k ->
            (k = "author_name" \/ k = "author_email") /\ legacy_author commit = true).
  { intros k Hk. apply rewrite_if_changed in Hk as [[-> | ->] Hl]; auto. }
  destruct (commit_callback_state commit) as [-> | ->]; split.
  - intros k Hk.
    destruct (decide (after_author commit !! k = commit !! k)) as [Heq|Hne];
      [|left; apply Hauthor; exact Hne].
    right. rewrite <- Heq in Hk.
    apply rewrite_if_changed in Hk as [Hk Hl].
    change (legacy_committer (after_author commit) = true) in Hl.
    rewrite legacy_committer_after_author in Hl.
    split; [destruct Hk as [-> | ->]; auto | exact Hl].
  - unfold after_committer, after_author.
    rewrite !rewrite_if_dom by attr_neq. reflexivity.
  - intros k Hk. left. apply Hauthor; exact Hk.
  - unfold after_author. apply rewrite_if_dom. attr_neq.
Qed.

Lemma commit_callback_frame_witness :
  snd (commit_callback commit_both) !! "message"
    = Some (PyBytes (b "Initial commit")) /\
  snd (commit_callback commit_both) !! "author_date"
    = Some (PyBytes (b "1700000000 +0000")) /\
  snd (commit_callback commit_both) !! "parents" = None /\
  legacy_author commit_both = true.
Proof.
  destruct (commit_callback_frame commit_both) as (Hother & Hchanged & _).
  assert (Hfield : forall k v, k ∉ identity_fields ->
            commit_both !! k = v ->
            snd (commit_callback commit_both) !! k = v).
  { intros k v Hk <-. apply Hother. exact Hk. }
  split; [|split; [|split]].
  - apply Hfield; [|reflexivity].
    unfold identity_fields. rewrite !not_elem_of_cons.
    repeat (split; [discriminate|]). apply not_elem_of_nil.
  - apply Hfield; [|reflexivity].
    unfold identity_fields. rewrite !not_elem_of_cons.
    repeat (split; [discriminate|]). apply not_elem_of_nil.
  - apply Hfield; [|reflexivity].
    unfold identity_fields. rewrite !not_elem_of_cons.
    repeat (split; [discriminate|]). apply not_elem_of_nil.
  - destruct (Hchanged "author_name") as [[_ Hl] | [[Hk | Hk] _]].
    + rewrite run_commit_both. discriminate.
    + exact Hl.
    + discriminate Hk.
    + discriminate Hk.
Defined.

(** On built-in values.  On a commit record [commit_callback] returns; an
    identity attribute whose value is not well formed (not a byte sequence,
    or the empty byte sequence) does not match and is passed through as it
    was. *)
Lemma commit_callback_returns_on_records (commit : obj) :
  commit_record commit ->
  fst (commit_callback commit) = Return tt /\
  forall k v, k ∈ identity_fields -> commit !! k = Some v ->
    malformed v = true -> snd (commit_callback commit) !! k = Some v.
Proof.
  intros Hrec.
  split; [rewrite (commit_record_returns commit Hrec); reflexivity|].
  intros k v Hk Hv Hbad. rewrite <- Hv. clear Hrec.
  unfold identity_fields in Hk. rewrite !elem_of_cons in Hk.
  destruct Hk as [-> | [-> | [-> | [-> | Hk]]]].
  - apply callback_author_not_legacy.
    apply (malformed_field_not_legacy _ _ commit v); [right|]; assumption.
  - apply callback_author_not_legacy.
    apply (malformed_field_not_legacy _ _ commit v); [left|]; assumption.
  - apply callback_committer_not_legacy.
    apply (malformed_field_not_legacy _ _ commit v); [right|]; assumption.
  - apply callback_committer_not_legacy.
    apply (malformed_field_not_legacy _ _ commit v); [left|]; assumption.
  - apply elem_of_nil in Hk. destruct Hk.
Qed.

(** C8. [commit_callback] is deterministic, and its outcome is decided by
    the four identity attributes: two calls on commits that agree on them
    end the same way, and every attribute on which the two commits agree
    is an attribute on which the two results agree. *)
Theorem commit_callback_deterministic (c1 c2 : obj) :
  (forall k, k ∈ identity_fields -> c1 !! k = c2 !! k) ->
  fst (commit_callback c1) = fst (commit_callback c2) /\
  forall k, c1 !! k = c2 !! k ->
    snd (commit_callback c1) !! k = snd (commit_callback c2) !! k.
Proof.
  intros Hid.
  assert (Han : c1 !! "author_name" = c2 !! "author_name")
    by (apply Hid; unfold identity_fields; rewrite !elem_of_cons; auto 6).
  assert (Hae : c1 !! "author_email" = c2 !! "author_email")
    by (apply Hid; unfold identity_fields; rewrite !elem_of_cons; auto 6).
  assert (Hcn : c1 !! "committer_name" = c2 !! "committer_name")
    by (apply Hid; unfold identity_fields; rewrite !elem_of_cons; auto 6).
  assert (Hce : c1 !! "committer_email" = c2 !! "committer_email")
    by (apply Hid; unfold identity_fields; rewrite !elem_of_cons; auto 6).
  clear Hid. rewrite !commit_callback_eval.
  rewrite (guard_outcome_ext "author_email" "author_name" c1 c2 Hae Han).
  destruct (guard_outcome "author_email" "author_name" c2) as [[]|e]; cbn [fst snd].
  - split; [apply guard_outcome_ext; assumption|].
    intros k Hk. unfold after_committer.
    destruct (after_author_committer_fields c1) as [He1 Hn1].
    destruct (after_author_committer_fields c2) as [He2 Hn2].
    apply rewrite_if_ext; [attr_neq | congruence | congruence |].
    unfold after_author. apply rewrite_if_ext; first [assumption | attr_neq].
  - split; [reflexivity | intros k Hk; exact Hk].
Qed.

Lemma commit_callback_deterministic_witness :
  commit_both ≠ commit_both_reworded /\
  fst (commit_callback commit_both) = fst (commit_callback commit_both_reworded) /\
  snd (commit_callback commit_both) !! "author_name"
    = snd (commit_callback commit_both_reworded) !! "author_name" /\
  snd (commit_callback commit_both) !! "committer_email"
    = snd (commit_callback commit_both_reworded) !! "committer_email".
Proof.
  split.
  { intros Heq. apply (f_equal (fun c : obj => c !! "message")) in Heq.
    vm_compute in Heq. discriminate Heq. }
  assert (Hid : forall k, k ∈ identity_fields ->
            commit_both !! k = commit_both_reworded !! k).
  { intros k Hk. unfold identity_fields in Hk. rewrite !elem_of_cons in Hk.
    destruct Hk as [-> | [-> | [-> | [-> | Hk]]]]; try reflexivity.
    apply elem_of_nil in Hk. destruct Hk. }
  destruct (commit_callback_deterministic commit_both commit_both_reworded Hid)
    as [Hfst Hsnd].
  split; [exact Hfst|]. split; apply Hsnd; reflexivity.
Defined.

(** C9. The legacy pair does not survive a call in either role.  On a
    commit record the call returns; and after a call that returns, the
    commit has neither [author_name] and [author_email] both equal to the
    legacy identity, nor [committer_name] and [committer_email] both equal
    to it. *)
Theorem legacy_pair_eliminated (commit : obj) :
  (commit_record commit -> fst (commit_callback commit) = Return tt) /\
  (fst (commit_callback commit) = Return tt ->
   legacy_author (snd (commit_callback commit)) = false /\
   legacy_committer (snd (commit_callback commit)) = false).
Proof.
  split.
  - intros Hrec. rewrite (commit_record_returns commit Hrec). reflexivity.
  - intros [Hg _]%commit_callback_returns.
    rewrite commit_callback_eval, Hg. cbn [snd]. split.
    + rewrite legacy_author_after_committer.
      apply legacy_pair_rewrite_if. attr_neq.
    + apply legacy_pair_rewrite_if. attr_neq.
Qed.

Lemma legacy_pair_eliminated_witness :
  legacy_author commit_both = true /\
  legacy_committer commit_both = true /\
  fst (commit_callback commit_both) = Return tt /\
  legacy_author (snd (commit_callback commit_both)) = false /\
  legacy_committer (snd (commit_callback commit_both)) = false.
Proof.
  destruct (legacy_pair_eliminated commit_both) as [Hret Hpost].
  split; [reflexivity|]. split; [reflexivity|].
  split; [apply Hret, commit_record_mk_commit|].
  apply Hpost, Hret, commit_record_mk_commit.
Defined.

(** C10. Each identity pair is updated as a whole.  After a call, either
    the pair held the legacy identity and [author_name] and [author_email]
    have both changed, to [b"GigaElk"] and [b"gigaelk@gmail.com"], or both
    are as they were; never one of the two alone.  Likewise for
    [committer_name] and [committer_email]. *)
Theorem pair_update_atomic (commit : obj) :
  let commit' := snd (commit_callback commit) in
  (legacy_author commit = true /\
   commit' !! "author_name" = Some (PyBytes canonical_name) /\
   commit' !! "author_email" = Some (PyBytes canonical_email) /\
   commit' !! "author_name" ≠ commit !! "author_name" /\
   commit' !! "author_email" ≠ commit !! "author_email"
   \/
   commit' !! "author_name" = commit !! "author_name" /\
   commit' !! "author_email" = commit !! "author_email") /\
  (legacy_committer commit = true /\
   commit' !! "committer_name" = Some (PyBytes canonical_name) /\
   commit' !! "committer_email" = Some (PyBytes canonical_email) /\
   commit' !! "committer_name" ≠ commit !! "committer_name" /\
   commit' !! "committer_email" ≠ commit !! "committer_email"
   \/
   commit' !! "committer_name" = commit !! "committer_name" /\
   commit' !! "committer_email" = commit !! "committer_email").
Proof.
  intros commit'. subst commit'. split.
  - destruct (legacy_author commit) eqn:Hl.
    + left.
      destruct (callback_author_legacy commit Hl) as [He Hn].
      destruct (callback_author_fields commit) as [He' Hn'].
      destruct (rewrite_if_fields_changed "author_email" "author_name"
                  ltac:(attr_neq) commit Hl) as [Hce Hcn].
      fold (after_author commit) in Hce, Hcn.
      rewrite <- He' in Hce. rewrite <- Hn' in Hcn. auto 6.
    + right. destruct (callback_author_not_legacy commit Hl). auto.
  - destruct (guard_outcome "author_email" "author_name" commit)
      as [[]|e] eqn:Hg.
    + destruct (legacy_committer commit) eqn:Hl.
      * left.
        destruct (callback_committer_legacy commit Hg Hl) as [He Hn].
        destruct (callback_committer_fields commit Hg) as [He' Hn'].
        destruct (rewrite_if_fields_changed "committer_email" "committer_name"
                    ltac:(attr_neq) commit Hl) as [Hce Hcn].
        fold (after_committer commit) in Hce, Hcn.
        rewrite <- He' in Hce. rewrite <- Hn' in Hcn. auto 6.
      * right. destruct (callback_committer_not_legacy commit Hl). auto.
    + right. rewrite (callback_author_raise commit e Hg). auto.
Qed.

(** ** Further properties of the callback *)

Section BlockFailure.

Variables email name : string.

(** A guard raises only for an attribute that is absent: the email, or the
    name once the email has matched. *)
Lemma guard_outcome_raise_absent (commit : obj) (e : exn) :
  guard_outcome email name commit = Raise e ->
  e = AttributeError email /\ commit !! email = None \/
  e = AttributeError name /\ commit !! name = None /\
    field_is commit email legacy_email = true.
Proof.
  unfold guard_outcome, field_is.
  destruct (commit !! email) as [ve|]; [|intros [= <-]; left; auto].
  destruct (eq_bytes ve legacy_email); [|discriminate].
  destruct (commit !! name) as [vn|]; [discriminate|].
  intros [= <-]. right. auto.
Qed.

End BlockFailure.

(** On built-in values the call returns exactly when every attribute it
    reads is there: the two emails always, and a name when its email is
    equal to the legacy email. *)
Lemma callback_returns_iff (commit : obj) :
  fst (commit_callback commit) = Return tt <->
  is_Some (commit !! "author_email") /\
  (field_is commit "author_email" legacy_email = true ->
   is_Some (commit !! "author_name")) /\
  is_Some (commit !! "committer_email") /\
  (field_is commit "committer_email" legacy_email = true ->
   is_Some (commit !! "committer_name")).
Proof.
  rewrite commit_callback_returns, !guard_outcome_return. tauto.
Qed.

(** On built-in values a call that raises names one of the four identity
    attributes, and that attribute is absent from the commit. *)
Lemma callback_raises_absent (commit : obj) (e : exn) :
  fst (commit_callback commit) = Raise e ->
  exists attr, e = AttributeError attr /\
    attr ∈ identity_fields /\ commit !! attr = None.
Proof.
  rewrite commit_callback_eval.
  destruct (guard_outcome "author_email" "author_name" commit)
    as [[]|e'] eqn:Hg; cbn [fst].
  - intros [[-> Hnone] | (-> & Hnone & _)]%guard_outcome_raise_absent;
      eexists; (split; [reflexivity|]); (split; [|exact Hnone]);
      unfold identity_fields; rewrite !elem_of_cons; auto 6.
  - intros [= <-].
    apply guard_outcome_raise_absent in Hg as [[-> Hnone] | (-> & Hnone & _)];
      eexists; (split; [reflexivity|]); (split; [|exact Hnone]);
      unfold identity_fields; rewrite !elem_of_cons; auto 6.
Qed.

(** X3. A call that raises in the committer block has already rewritten a
    legacy author: with a legacy author pair and no [committer_email], the
    call raises [AttributeError] for [committer_email] and leaves
    [author_name = b"GigaElk"], [author_email = b"gigaelk@gmail.com"]. *)
Theorem committer_failure_after_author_rewrite (commit : obj) :
  legacy_author commit = true ->
  commit !! "committer_email" = None ->
  fst (commit_callback commit) = Raise (AttributeError "committer_email") /\
  snd (commit_callback commit) !! "author_name" = Some (PyBytes canonical_name) /\
  snd (commit_callback commit) !! "author_email" = Some (PyBytes canonical_email).
Proof.
  intros Hl Hnone.
  destruct (callback_author_legacy commit Hl) as [He Hn].
  split; [|split; assumption].
  apply legacy_pair_true in Hl as [Hfe Hfn].
  apply field_is_Some in Hfe as (ve & Hve & _).
  apply field_is_Some in Hfn as (vn & Hvn & _).
  rewrite commit_callback_eval.
  rewrite (guard_outcome_present "author_email" "author_name")
    by (eexists; eassumption).
  cbn [fst]. unfold guard_outcome. rewrite Hnone. reflexivity.
Qed.

Lemma committer_failure_after_author_rewrite_witness :
  fst (commit_callback commit_no_committer_email)
    = Raise (AttributeError "committer_email") /\
  snd (commit_callback commit_no_committer_email) !! "author_name"
    = Some (PyBytes (b "GigaElk")) /\
  snd (commit_callback commit_no_committer_email) !! "author_email"
    = Some (PyBytes (b "gigaelk@gmail.com")).
Proof.
  apply (committer_failure_after_author_rewrite commit_no_committer_email);
    reflexivity.
Defined.

(** X4. A call that raises in the author block changes nothing: when
    [author_email] is absent, or is the legacy email beside an absent
    [author_name], the call raises and the commit is as it was, a legacy
    committer included. *)
Theorem author_failure_changes_nothing (commit : obj) :
  commit !! "author_email" = None \/
  field_is commit "author_email" legacy_email = true /\
    commit !! "author_name" = None ->
  (exists e, fst (commit_callback commit) = Raise e) /\
  snd (commit_callback commit) = commit.
Proof.
  intros Habsent.
  assert (Hg : exists e,
            guard_outcome "author_email" "author_name" commit = Raise e).
  { unfold guard_outcome.
    destruct Habsent as [-> | [(ve & -> & ->)%field_is_Some ->]];
      eexists; reflexivity. }
  destruct Hg as [e Hg]. rewrite (callback_author_raise commit e Hg).
  split; [exists e|]; reflexivity.
Qed.

Lemma author_failure_changes_nothing_witness :
  legacy_committer commit_no_author_name = true /\
  (exists e, fst (commit_callback commit_no_author_name) = Raise e) /\
  snd (commit_callback commit_no_author_name) = commit_no_author_name.
Proof.
  split; [reflexivity|].
  apply (author_failure_changes_nothing commit_no_author_name).
  right. split; reflexivity.
Defined.

(** X5. On a commit record the call changes the commit exactly when one of
    the two pairs holds the legacy identity: without a legacy pair the
    commit after the call is the commit before it, attribute for
    attribute, and with one it is not. *)
Theorem callback_noop_iff (commit : obj) :
  commit_record commit ->
  snd (commit_callback commit) = commit <->
  legacy_author commit = false /\ legacy_committer commit = false.
Proof.
  intros Hrec. pose proof (commit_record_author_guard commit Hrec) as Hg.
  split.
  - intros Hsame. split.
    + destruct (legacy_author commit) eqn:Hl; [|reflexivity]. exfalso.
      destruct (callback_author_fields commit) as [He _].
      destruct (rewrite_if_fields_changed "author_email" "author_name"
                  ltac:(attr_neq) commit Hl) as [Hce _].
      apply Hce. fold (after_author commit). rewrite <- He, Hsame. reflexivity.
    + destruct (legacy_committer commit) eqn:Hl; [|reflexivity]. exfalso.
      destruct (callback_committer_fields commit Hg) as [He _].
      destruct (rewrite_if_fields_changed "committer_email" "committer_name"
                  ltac:(attr_neq) commit Hl) as [Hce _].
      apply Hce. fold (after_committer commit). rewrite <- He, Hsame. reflexivity.
  - intros [Ha Hc]. rewrite (commit_record_returns commit Hrec). cbn [snd].
    unfold after_author. rewrite (rewrite_if_not_legacy _ _ commit Ha).
    unfold after_committer. apply rewrite_if_not_legacy. exact Hc.
Qed.

Lemma callback_noop_iff_witness :
  snd (commit_callback commit_lowercase) = commit_lowercase /\
  snd (commit_callback commit_author_only) ≠ commit_author_only.
Proof.
  split.
  - apply (callback_noop_iff commit_lowercase (commit_record_mk_commit _ _ _ _)).
    split; reflexivity.
  - intros Hsame.
    apply (callback_noop_iff commit_author_only (commit_record_mk_commit _ _ _ _))
      in Hsame as [Ha _].
    discriminate Ha.
Defined.

(** X6. The driver's typing of the identity attributes is kept: when the
    four identity attributes hold [bytes] objects, the call returns and
    they hold [bytes] objects afterwards. *)
Theorem callback_keeps_bytes_record (commit : obj) :
  bytes_record commit ->
  fst (commit_callback commit) = Return tt /\
  bytes_record (snd (commit_callback commit)).
Proof.
  intros Hbytes.
  assert (Hrec : commit_record commit).
  { unfold commit_record. unfold bytes_record in Hbytes.
    eapply Forall_impl; [exact Hbytes|].
    intros k [x Hx]. exists (PyBytes x). exact Hx. }
  split; [rewrite (commit_record_returns commit Hrec); reflexivity|].
  pose proof (commit_record_author_guard commit Hrec) as Hg.
  unfold bytes_record, identity_fields in *.
  repeat (apply Forall_cons in Hbytes as [? Hbytes]).
  assert (Hauthor :
    (exists x, snd (commit_callback commit) !! "author_name" = Some (PyBytes x)) /\
    (exists x, snd (commit_callback commit) !! "author_email" = Some (PyBytes x))).
  { destruct (legacy_author commit) eqn:Hl.
    - destruct (callback_author_legacy commit Hl) as [-> ->].
      split; eexists; reflexivity.
    - destruct (callback_author_not_legacy commit Hl) as [-> ->].
      split; assumption. }
  assert (Hcommitter :
    (exists x, snd (commit_callback commit) !! "committer_name" = Some (PyBytes x)) /\
    (exists x, snd (commit_callback commit) !! "committer_email" = Some (PyBytes x))).
  { destruct (legacy_committer commit) eqn:Hl.
    - destruct (callback_committer_legacy commit Hg Hl) as [-> ->].
      split; eexists; reflexivity.
    - destruct (callback_committer_not_legacy commit Hl) as [-> ->].
      split; assumption. }
  destruct Hauthor, Hcommitter.
  repeat apply Forall_cons_2; [..|apply Forall_nil_2]; assumption.
Qed.

Lemma bytes_record_mk_commit (an ae cn ce : bytes) :
  bytes_record (mk_commit (PyBytes an) (PyBytes ae) (PyBytes cn) (PyBytes ce)).
Proof.
  unfold bytes_record, identity_fields, mk_commit.
  repeat apply Forall_cons_2; [..|apply Forall_nil_2]; eexists; reflexivity.
Defined.

Lemma callback_keeps_bytes_record_witness :
  fst (commit_callback commit_author_only) = Return tt /\
  bytes_record (snd (commit_callback commit_author_only)).
Proof.
  apply (callback_keeps_bytes_record commit_author_only).
  apply bytes_record_mk_commit.
Defined.

(** Byte-by-byte comparison decides equality of byte sequences. *)
Lemma bytes_eqb_eq (x y : bytes) : bytes_eqb x y = true <-> x = y.
Proof.
  revert y. induction x as [|x0 x IH]; intros [|y0 y]; cbn [bytes_eqb].
  - split; reflexivity.
  - split; discriminate.
  - split; discriminate.
  - rewrite andb_true_iff, IH. split.
    + intros [H0%Byte.byte_dec_bl ->]. rewrite H0. reflexivity.
    + intros [= -> ->]. split; [apply Byte.byte_dec_lb|]; reflexivity.
Qed.

Lemma field_is_exact (commit : obj) (k : string) (lit : bytes) :
  field_is commit k lit = true ->
  commit !! k = Some (PyBytes lit) \/ commit !! k = Some (PyByteArray lit).
Proof.
  intros (v & -> & Hv)%field_is_Some.
  destruct v as [| | | |x|x]; try discriminate Hv;
    apply bytes_eqb_eq in Hv as ->; auto.
Qed.

(** On built-in values the guards are exact matches: a pair that the call
    changes held exactly the legacy bytes, as a [bytes] or a [bytearray]. *)
Lemma callback_rewrites_exact_match_only (commit : obj) :
  let commit' := snd (commit_callback commit) in
  (commit' !! "author_name" ≠ commit !! "author_name" \/
   commit' !! "author_email" ≠ commit !! "author_email" ->
   (commit !! "author_name" = Some (PyBytes (b "Andrew Hewitt")) \/
    commit !! "author_name" = Some (PyByteArray (b "Andrew Hewitt"))) /\
   (commit !! "author_email" = Some (PyBytes (b "andrew@caramel-code.com")) \/
    commit !! "author_email" = Some (PyByteArray (b "andrew@caramel-code.com")))) /\
  (commit' !! "committer_name" ≠ commit !! "committer_name" \/
   commit' !! "committer_email" ≠ commit !! "committer_email" ->
   (commit !! "committer_name" = Some (PyBytes (b "Andrew Hewitt")) \/
    commit !! "committer_name" = Some (PyByteArray (b "Andrew Hewitt"))) /\
   (commit !! "committer_email" = Some (PyBytes (b "andrew@caramel-code.com")) \/
    commit !! "committer_email" = Some (PyByteArray (b "andrew@caramel-code.com")))).
Proof.
  intros commit'. subst commit'. split; intros Hchanged.
  - destruct (legacy_author commit) eqn:Hl.
    + apply legacy_pair_true in Hl as [He Hn].
      split; apply field_is_exact; assumption.
    + destruct (callback_author_not_legacy commit Hl) as [He Hn].
      destruct Hchanged as [Hc | Hc]; contradiction.
  - destruct (legacy_committer commit) eqn:Hl.
    + apply legacy_pair_true in Hl as [He Hn].
      split; apply field_is_exact; assumption.
    + destruct (callback_committer_not_legacy commit Hl) as [He Hn].
      destruct Hchanged as [Hc | Hc]; contradiction.
Qed.

Section BlockFrame.

Variables email name : string.

(** Assigning another attribute before or after a pair has been assigned
    gives the same object. *)
Lemma rewritten_insert (commit : obj) (k : string) (v : pyval) :
  k ≠ email -> k ≠ name ->
  rewritten email name (<[k := v]> commit) = <[k := v]> (rewritten email name commit).
Proof.
  intros Hke Hkn. unfold rewritten.
  rewrite (insert_insert_ne commit email k) by congruence.
  rewrite (insert_insert_ne _ name k) by congruence.
  reflexivity.
Qed.

Lemma legacy_pair_insert (commit : obj) (k : string) (v : pyval) :
  k ≠ email -> k ≠ name ->
  legacy_pair (<[k := v]> commit) email name = legacy_pair commit email name.
Proof.
  intros Hke Hkn. apply legacy_pair_ext; apply lookup_insert_ne; assumption.
Qed.

Lemma guard_outcome_insert (commit : obj) (k : string) (v : pyval) :
  k ≠ email -> k ≠ name ->
  guard_outcome email name (<[k := v]> commit) = guard_outcome email name commit.
Proof.
  intros Hke Hkn. apply guard_outcome_ext; apply lookup_insert_ne; assumption.
Qed.

Lemma rewrite_if_insert (commit : obj) (k : string) (v : pyval) :
  k ≠ email -> k ≠ name ->
  rewrite_if email name (<[k := v]> commit) = <[k := v]> (rewrite_if email name commit).
Proof.
  intros Hke Hkn. unfold rewrite_if.
  rewrite legacy_pair_insert by assumption.
  destruct (legacy_pair commit email name); [|reflexivity].
  apply rewritten_insert; assumption.
Qed.

End BlockFrame.

(** X8. The call commutes with an assignment to any attribute outside the
    four identity attributes: assigning the message (a date, the parents)
    before the call gives the outcome and the commit that assigning it
    after the call gives. *)
Theorem callback_commutes_with_other_assignment
    (commit : obj) (k : string) (v : pyval) :
  k ∉ identity_fields ->
  commit_callback (<[k := v]> commit) =
    (fst (commit_callback commit), <[k := v]> (snd (commit_callback commit))).
Proof.
  unfold identity_fields. rewrite !not_elem_of_cons.
  intros (Han & Hae & Hcn & Hce & _).
  rewrite !commit_callback_eval.
  rewrite guard_outcome_insert by assumption.
  destruct (guard_outcome "author_email" "author_name" commit) as [[]|e];
    cbn [fst snd]; [|reflexivity].
  rewrite guard_outcome_insert by assumption. f_equal.
  unfold after_author, after_committer.
  rewrite !rewrite_if_insert by assumption. reflexivity.
Qed.

Lemma callback_commutes_with_other_assignment_witness :
  commit_callback (<["message" := PyBytes (b "Second commit")]> commit_both) =
    (fst (commit_callback commit_both),
     <["message" := PyBytes (b "Second commit")]> (snd (commit_callback commit_both))).
Proof.
  apply (callback_commutes_with_other_assignment commit_both "message").
  unfold identity_fields. rewrite !not_elem_of_cons.
  repeat (split; [discriminate|]). apply not_elem_of_nil.
Defined.

(** X9. The same rule is applied in both roles: on a commit record whose
    committer attributes are equal to its author attributes, the committer
    attributes after the call are equal to the author attributes after the
    call. *)
Theorem same_identity_same_result (commit : obj) :
  commit_record commit ->
  commit !! "committer_name" = commit !! "author_name" ->
  commit !! "committer_email" = commit !! "author_email" ->
  snd (commit_callback commit) !! "committer_name"
    = snd (commit_callback commit) !! "author_name" /\
  snd (commit_callback commit) !! "committer_email"
    = snd (commit_callback commit) !! "author_email".
Proof.
  intros Hrec Hn He.
  pose proof (commit_record_author_guard commit Hrec) as Hg.
  assert (Hl : legacy_committer commit = legacy_author commit).
  { unfold legacy_committer, legacy_author, legacy_pair, field_is.
    rewrite Hn, He. reflexivity. }
  destruct (legacy_author commit) eqn:Ha.
  - destruct (callback_author_legacy commit Ha) as [-> ->].
    destruct (callback_committer_legacy commit Hg Hl) as [-> ->].
    split; reflexivity.
  - destruct (callback_author_not_legacy commit Ha) as [-> ->].
    destruct (callback_committer_not_legacy commit Hl) as [-> ->].
    split; assumption.
Qed.

Lemma same_identity_same_result_witness :
  (snd (commit_callback commit_both) !! "committer_name"
     = snd (commit_callback commit_both) !! "author_name" /\
   snd (commit_callback commit_both) !! "committer_email"
     = snd (commit_callback commit_both) !! "author_email") /\
  (snd (commit_callback commit_same_roles) !! "committer_name"
     = snd (commit_callback commit_same_roles) !! "author_name" /\
   snd (commit_callback commit_same_roles) !! "committer_email"
     = snd (commit_callback commit_same_roles) !! "author_email").
Proof.
  split.
  - apply (same_identity_same_result commit_both);
      [apply commit_record_mk_commit | reflexivity | reflexivity].
  - apply (same_identity_same_result commit_same_roles);
      [apply commit_record_mk_commit | reflexivity | reflexivity].
Defined.

(** The two blocks assign disjoint attributes: the objects they leave do
    not depend on which ran first. *)
Lemma rewritten_author_committer (commit : obj) :
  rewritten "author_email" "author_name"
    (rewritten "committer_email" "committer_name" commit)
  = rewritten "committer_email" "committer_name"
      (rewritten "author_email" "author_name" commit).
Proof.
  transitivity
    (<["committer_name" := PyBytes canonical_name]>
       (<["committer_email" := PyBytes canonical_email]>
          (rewritten "author_email" "author_name" commit))); [|reflexivity].
  rewrite <- !rewritten_insert by attr_neq. reflexivity.
Qed.

Lemma after_author_after_committer (commit : obj) :
  after_author (after_committer commit) = after_committer (after_author commit).
Proof.
  pose proof (legacy_author_after_committer commit) as HaC.
  pose proof (legacy_committer_after_author commit) as HcA.
  destruct (legacy_author commit) eqn:Ha; destruct (legacy_committer commit) eqn:Hc.
  - transitivity (rewritten "author_email" "author_name"
                    (rewritten "committer_email" "committer_name" commit)).
    { unfold after_author. rewrite (rewrite_if_legacy _ _ _ HaC).
      unfold after_committer. rewrite (rewrite_if_legacy _ _ _ Hc). reflexivity. }
    rewrite rewritten_author_committer.
    unfold after_committer. rewrite (rewrite_if_legacy _ _ _ HcA).
    unfold after_author. rewrite (rewrite_if_legacy _ _ _ Ha). reflexivity.
  - transitivity (rewritten "author_email" "author_name" commit).
    { unfold after_author. rewrite (rewrite_if_legacy _ _ _ HaC).
      unfold after_committer. rewrite (rewrite_if_not_legacy _ _ _ Hc). reflexivity. }
    unfold after_committer. rewrite (rewrite_if_not_legacy _ _ _ HcA).
    unfold after_author. rewrite (rewrite_if_legacy _ _ _ Ha). reflexivity.
  - transitivity (rewritten "committer_email" "committer_name" commit).
    { unfold after_author. rewrite (rewrite_if_not_legacy _ _ _ HaC).
      unfold after_committer. rewrite (rewrite_if_legacy _ _ _ Hc). reflexivity. }
    unfold after_committer. rewrite (rewrite_if_legacy _ _ _ HcA).
    unfold after_author. rewrite (rewrite_if_not_legacy _ _ _ Ha). reflexivity.
  - transitivity commit.
    { unfold after_author. rewrite (rewrite_if_not_legacy _ _ _ HaC).
      unfold after_committer. rewrite (rewrite_if_not_legacy _ _ _ Hc). reflexivity. }
    unfold after_committer. rewrite (rewrite_if_not_legacy _ _ _ HcA).
    unfold after_author. rewrite (rewrite_if_not_legacy _ _ _ Ha). reflexivity.
Qed.

(** X10. The order of the two blocks does not matter on a commit record:
    the committer block followed by the author block returns as the call
    does and leaves the commit the call leaves. *)
Theorem blocks_commute (commit : obj) :
  commit_record commit ->
  (rewrite_identity "committer_email" "committer_name";;
   rewrite_identity "author_email" "author_name") commit
  = commit_callback commit.
Proof.
  intros Hrec. rewrite (commit_record_returns commit Hrec).
  apply commit_record_fields in Hrec as (Han & Hae & Hcn & Hce).
  unfold mbind, M_bind. rewrite rewrite_identity_eval.
  rewrite (guard_outcome_present "committer_email" "committer_name")
    by assumption.
  rewrite rewrite_identity_eval.
  destruct (after_committer_author_fields commit) as [He Hn].
  fold (after_committer commit).
  rewrite (guard_outcome_ext "author_email" "author_name" _ _ He Hn).
  rewrite (guard_outcome_present "author_email" "author_name") by assumption.
  f_equal. apply after_author_after_committer.
Qed.

Lemma blocks_commute_witness :
  (rewrite_identity "committer_email" "committer_name";;
   rewrite_identity "author_email" "author_name") commit_both
  = commit_callback commit_both.
Proof.
  apply (blocks_commute commit_both). apply commit_record_mk_commit.
Defined.

(** ** The callback on values of other classes *)

Lemma plain_part_lookup (commit : gmap string Foreign.value) (k : string) :
  Foreign.plain_part commit !! k = commit !! k ≫= Foreign.plain_of.
Proof. unfold Foreign.plain_part. apply lookup_omap. Qed.

Lemma plain_part_insert (commit : gmap string Foreign.value) (k : string) (p : pyval) :
  Foreign.plain_part (<[k := Foreign.Plain p]> commit)
  = <[k := p]> (Foreign.plain_part commit).
Proof. unfold Foreign.plain_part. apply omap_insert_Some. reflexivity. Qed.

Lemma plain_part_fmap (commit : obj) :
  Foreign.plain_part (Foreign.Plain <$> commit) = commit.
Proof.
  apply map_eq. intros k. rewrite plain_part_lookup, lookup_fmap.
  destruct (commit !! k); reflexivity.
Qed.

Lemma plain_at_lookup (commit : gmap string Foreign.value) (k : string) :
  plain_at commit k ->
  commit !! k = Foreign.Plain <$> (Foreign.plain_part commit !! k).
Proof.
  intros Hplain. rewrite plain_part_lookup.
  destruct (commit !! k) as [v|] eqn:Hv; [|reflexivity].
  destruct (Hplain v Hv) as [p ->]. reflexivity.
Qed.

Lemma foreign_field_is (commit : gmap string Foreign.value) (k : string) (lit : bytes) :
  Foreign.field_is commit k lit = field_is (Foreign.plain_part commit) k lit.
Proof.
  unfold Foreign.field_is, field_is. rewrite plain_part_lookup.
  destruct (commit !! k) as [[p|cls eq]|]; reflexivity.
Qed.

Lemma lift_outcome_return (r : outcome unit) :
  lift_outcome r = Foreign.Return tt <-> r = Return tt.
Proof.
  destruct r as [[]|[name]]; cbn [lift_outcome];
    split; (reflexivity || discriminate).
Qed.

Lemma lift_outcome_raise (r : outcome unit) (e : Foreign.exn) :
  lift_outcome r = Foreign.Raise e ->
  exists name, e = Foreign.AttributeError name /\ r = Raise (AttributeError name).
Proof.
  destruct r as [[]|[name]]; cbn [lift_outcome]; [discriminate|].
  intros [= <-]. exists name. split; reflexivity.
Qed.

Section ForeignBlock.

Variables email name : string.
Hypothesis email_name : email ≠ name.

(** On a pair of built-in values a block does what the block on built-in
    values does. *)
Lemma foreign_rewrite_identity_eval (commit : gmap string Foreign.value) :
  plain_at commit email -> plain_at commit name ->
  Foreign.rewrite_identity email name commit =
    (lift_outcome (guard_outcome email name (Foreign.plain_part commit)),
     Foreign.rewrite_if email name commit).
Proof.
  intros He Hn.
  unfold Foreign.rewrite_identity, Foreign.if_, Foreign.and_, Foreign.getattr,
    Foreign.setattr, Foreign.compare, Foreign.rewrite_if, guard_outcome,
    legacy_pair, field_is, mbind, Foreign.M_bind, mret, Foreign.M_ret.
  rewrite !plain_part_lookup. fold legacy_email legacy_name.
  destruct (commit !! email) as [ve|] eqn:Hve; [|reflexivity].
  destruct (He ve Hve) as [pe ->]. cbn [mbind option_bind Foreign.plain_of].
  destruct (eq_bytes pe legacy_email); [|reflexivity].
  destruct (commit !! name) as [vn|] eqn:Hvn; [|reflexivity].
  destruct (Hn vn Hvn) as [pn ->]. cbn [mbind option_bind Foreign.plain_of].
  destruct (eq_bytes pn legacy_name); reflexivity.
Qed.

Lemma plain_part_rewrite_if (commit : gmap string Foreign.value) :
  Foreign.plain_part (Foreign.rewrite_if email name commit)
  = rewrite_if email name (Foreign.plain_part commit).
Proof.
  unfold Foreign.rewrite_if, rewrite_if, rewritten.
  destruct (legacy_pair (Foreign.plain_part commit) email name); [|reflexivity].
  rewrite !plain_part_insert. reflexivity.
Qed.

Lemma plain_at_rewrite_if (commit : gmap string Foreign.value) (k : string) :
  plain_at commit k -> plain_at (Foreign.rewrite_if email name commit) k.
Proof.
  intros Hk. unfold Foreign.rewrite_if.
  destruct (legacy_pair (Foreign.plain_part commit) email name); [|exact Hk].
  intros v. rewrite !lookup_insert.
  repeat case_decide; [intros [= <-]; eexists; reflexivity ..|apply Hk].
Qed.

Lemma foreign_rewrite_if_fmap (commit : obj) :
  Foreign.rewrite_if email name (Foreign.Plain <$> commit)
  = Foreign.Plain <$> rewrite_if email name commit.
Proof.
  unfold Foreign.rewrite_if, rewrite_if, rewritten. rewrite plain_part_fmap.
  destruct (legacy_pair commit email name); [|reflexivity].
  rewrite !fmap_insert. reflexivity.
Qed.

End ForeignBlock.

Lemma foreign_callback_blocks :
  Foreign.commit_callback =
    (Foreign.rewrite_identity "author_email" "author_name";;
     Foreign.rewrite_identity "committer_email" "committer_name").
Proof. reflexivity. Qed.

Lemma plain_identity_at (commit : gmap string Foreign.value) :
  Foreign.plain_identity commit ->
  forall k, k ∈ identity_fields -> plain_at commit k.
Proof. intros Hplain k Hk v Hv. exact (Hplain k v Hk Hv). Qed.

Lemma identity_fields_elem :
  "author_name" ∈ identity_fields /\ "author_email" ∈ identity_fields /\
  "committer_name" ∈ identity_fields /\ "committer_email" ∈ identity_fields.
Proof. unfold identity_fields. rewrite !elem_of_cons. auto 8. Qed.

(** The call on a commit whose identity attributes hold built-in values,
    by cases on how the author guard ends. *)
Lemma foreign_callback_eval (commit : gmap string Foreign.value) :
  Foreign.plain_identity commit ->
  Foreign.commit_callback commit =
    match guard_outcome "author_email" "author_name" (Foreign.plain_part commit) with
    | Return _ =>
        (lift_outcome (guard_outcome "committer_email" "committer_name"
                         (Foreign.plain_part commit)),
         Foreign.rewrite_if "committer_email" "committer_name"
           (Foreign.rewrite_if "author_email" "author_name" commit))
    | Raise e => (lift_outcome (Raise e), commit)
    end.
Proof.
  intros Hplain. pose proof (plain_identity_at commit Hplain) as Hat.
  destruct identity_fields_elem as (Han & Hae & Hcn & Hce).
  rewrite foreign_callback_blocks. unfold mbind at 1. unfold Foreign.M_bind.
  rewrite foreign_rewrite_identity_eval by auto.
  destruct (guard_outcome "author_email" "author_name" (Foreign.plain_part commit))
    as [[]|[attr]] eqn:Hg; cbn [lift_outcome].
  - rewrite foreign_rewrite_identity_eval by (apply plain_at_rewrite_if; auto).
    f_equal. f_equal. rewrite plain_part_rewrite_if.
    destruct (after_author_committer_fields (Foreign.plain_part commit)) as [He Hn].
    apply guard_outcome_ext; assumption.
  - apply guard_outcome_raise in Hg.
    unfold Foreign.rewrite_if. rewrite Hg. reflexivity.
Qed.

(** On identity attributes that hold built-in values the call ends as the
    callback on built-in values ends on the built-in part of the commit,
    and leaves that part as that callback leaves it. *)
Lemma foreign_callback_plain (commit : gmap string Foreign.value) :
  Foreign.plain_identity commit ->
  fst (Foreign.commit_callback commit)
    = lift_outcome (fst (commit_callback (Foreign.plain_part commit))) /\
  Foreign.plain_part (snd (Foreign.commit_callback commit))
    = snd (commit_callback (Foreign.plain_part commit)) /\
  Foreign.plain_identity (snd (Foreign.commit_callback commit)).
Proof.
  intros Hplain. rewrite (foreign_callback_eval commit Hplain).
  rewrite commit_callback_eval.
  destruct (guard_outcome "author_email" "author_name" (Foreign.plain_part commit))
    as [[]|e]; cbn [fst snd].
  - split; [reflexivity|]. split.
    + rewrite !plain_part_rewrite_if. reflexivity.
    + intros k v Hk. apply plain_at_rewrite_if, plain_at_rewrite_if.
      apply (plain_identity_at commit Hplain k Hk).
  - split; [reflexivity|]. split; [reflexivity|exact Hplain].
Qed.

(** What the call leaves in an identity attribute. *)
Lemma foreign_callback_identity_field (commit : gmap string Foreign.value) (k : string) :
  Foreign.plain_identity commit -> k ∈ identity_fields ->
  snd (Foreign.commit_callback commit) !! k
    = Foreign.Plain <$> (snd (commit_callback (Foreign.plain_part commit)) !! k) /\
  commit !! k = Foreign.Plain <$> (Foreign.plain_part commit !! k).
Proof.
  intros Hplain Hk.
  destruct (foreign_callback_plain commit Hplain) as (_ & Hpart & Hplain').
  split.
  - rewrite <- Hpart. apply plain_at_lookup.
    apply (plain_identity_at _ Hplain' k Hk).
  - apply plain_at_lookup. apply (plain_identity_at _ Hplain k Hk).
Qed.

Lemma plain_identityb_true (commit : gmap string Foreign.value) :
  plain_identityb commit = true -> Foreign.plain_identity commit.
Proof.
  unfold plain_identityb. rewrite forallb_forall.
  intros Hall k v Hk Hv. apply list_elem_of_In in Hk.
  specialize (Hall k Hk). rewrite Hv in Hall.
  destruct v as [p|cls eq]; [exists p; reflexivity | discriminate].
Defined.

Lemma plain_record_identity (commit : gmap string Foreign.value) :
  Foreign.plain_record commit ->
  Foreign.plain_identity commit /\ commit_record (Foreign.plain_part commit).
Proof.
  unfold Foreign.plain_record, commit_record. intros Hrec. split.
  - intros k v Hk Hv. rewrite Forall_forall in Hrec.
    destruct (Hrec k Hk) as [p Hp]. exists p. congruence.
  - eapply Forall_impl; [exact Hrec|].
    intros k [p Hp]. exists p. rewrite plain_part_lookup, Hp. reflexivity.
Qed.

(** The callback on built-in values is the callback on values of either
    kind, restricted to commits that hold built-in values only. *)
Lemma foreign_callback_fmap (commit : obj) :
  Foreign.commit_callback (Foreign.Plain <$> commit)
  = (lift_outcome (fst (commit_callback commit)),
     Foreign.Plain <$> snd (commit_callback commit)).
Proof.
  rewrite foreign_callback_eval.
  - rewrite plain_part_fmap, commit_callback_eval.
    destruct (guard_outcome "author_email" "author_name" commit) as [[]|e];
      cbn [fst snd]; [|reflexivity].
    unfold after_author, after_committer.
    rewrite !foreign_rewrite_if_fmap. reflexivity.
  - intros k v _. rewrite lookup_fmap.
    destruct (commit !! k) as [p|]; [|discriminate].
    intros [= <-]. exists p. reflexivity.
Qed.

(** A pair of [memoryview]s of the legacy identity is rewritten: an object
    of another class can be equal to the literals. *)
Example run_commit_memoryview :
  fst (Foreign.commit_callback Foreign.commit_memoryview) = Foreign.Return tt /\
  snd (Foreign.commit_callback Foreign.commit_memoryview) !! "author_name"
    = Some (Foreign.Plain (PyBytes (b "GigaElk"))) /\
  snd (Foreign.commit_callback Foreign.commit_memoryview) !! "author_email"
    = Some (Foreign.Plain (PyBytes (b "gigaelk@gmail.com"))).
Proof. vm_compute. repeat split. Qed.

(** C7, as the code has it.  On a commit that has the four identity
    attributes, each holding a built-in value ([None], a [bool], an [int],
    a [str], a [bytes] or a [bytearray]), [commit_callback] returns; an
    identity attribute whose value is not well formed (not a byte
    sequence, or the empty byte sequence) does not match and is passed
    through as it was.  The other attributes may hold anything. *)
Theorem callback_returns_on_plain_records (commit : gmap string Foreign.value) :
  Foreign.plain_record commit ->
  fst (Foreign.commit_callback commit) = Foreign.Return tt /\
  forall k p, k ∈ identity_fields -> commit !! k = Some (Foreign.Plain p) ->
    malformed p = true ->
    snd (Foreign.commit_callback commit) !! k = Some (Foreign.Plain p).
Proof.
  intros [Hplain Hrec]%plain_record_identity.
  destruct (commit_callback_returns_on_records _ Hrec) as [Hret Hpass].
  split.
  - destruct (foreign_callback_plain commit Hplain) as (-> & _ & _).
    rewrite Hret. reflexivity.
  - intros k p Hk Hp Hbad.
    destruct (foreign_callback_identity_field commit k Hplain Hk) as [-> _].
    rewrite (Hpass k p Hk); [reflexivity | | exact Hbad].
    rewrite plain_part_lookup, Hp. reflexivity.
Qed.

Lemma callback_returns_on_plain_records_witness :
  fst (Foreign.commit_callback Foreign.commit_malformed_fields)
    = Foreign.Return tt /\
  snd (Foreign.commit_callback Foreign.commit_malformed_fields) !! "author_name"
    = Some (Foreign.Plain PyNone) /\
  snd (Foreign.commit_callback Foreign.commit_malformed_fields) !! "committer_name"
    = Some (Foreign.Plain (PyBytes [])) /\
  snd (Foreign.commit_callback Foreign.commit_malformed_fields) !! "committer_email"
    = Some (Foreign.Plain (PyStr "andrew@caramel-code.com")).
Proof.
  assert (Hrec : Foreign.plain_record Foreign.commit_malformed_fields).
  { unfold Foreign.plain_record, identity_fields.
    repeat apply Forall_cons_2; [..|apply Forall_nil_2]; eexists; reflexivity. }
  destruct (callback_returns_on_plain_records _ Hrec) as [Hret Hpass].
  destruct identity_fields_elem as (Han & Hae & Hcn & Hce).
  split; [exact Hret|].
  split; [|split]; apply Hpass; first [assumption | reflexivity].
Defined.

(** C7, as the specification states it, fails in both of the ways it
    names.  An identity field that is absent: without [author_email] the
    call raises [AttributeError].  An identity field that is malformed: on
    a commit that has the four identity attributes, an [author_email]
    whose comparison raises makes the call raise. *)
Lemma callback_fails_on_absent_or_malformed_field :
  ((Foreign.Plain <$> commit_no_author_email) !! "author_email" = None /\
   fst (Foreign.commit_callback (Foreign.Plain <$> commit_no_author_email))
     = Foreign.Raise (Foreign.AttributeError "author_email")) /\
  (Forall (fun k => is_Some (Foreign.commit_strict !! k)) identity_fields /\
   fst (Foreign.commit_callback Foreign.commit_strict)
     = Foreign.Raise (Foreign.Raised "ValueError")).
Proof.
  split; split.
  - reflexivity.
  - vm_compute. reflexivity.
  - unfold identity_fields.
    repeat apply Forall_cons_2; [..|apply Forall_nil_2]; eexists; reflexivity.
  - vm_compute. reflexivity.
Qed.

(** X1. When the identity attributes that are there hold built-in values
    ([None], a [bool], an [int], a [str], a [bytes] or a [bytearray]), the
    call returns exactly when every attribute it reads is there: the two
    emails always, and a name when its email is equal to the legacy email.
    A name that is absent beside another email is never read. *)
Theorem plain_callback_returns_iff (commit : gmap string Foreign.value) :
  Foreign.plain_identity commit ->
  fst (Foreign.commit_callback commit) = Foreign.Return tt <->
  is_Some (commit !! "author_email") /\
  (Foreign.field_is commit "author_email" legacy_email = true ->
   is_Some (commit !! "author_name")) /\
  is_Some (commit !! "committer_email") /\
  (Foreign.field_is commit "committer_email" legacy_email = true ->
   is_Some (commit !! "committer_name")).
Proof.
  intros Hplain.
  destruct (foreign_callback_plain commit Hplain) as (-> & _ & _).
  rewrite lift_outcome_return, callback_returns_iff, !foreign_field_is.
  destruct identity_fields_elem as (Han & Hae & Hcn & Hce).
  rewrite (plain_at_lookup commit "author_name"),
          (plain_at_lookup commit "author_email"),
          (plain_at_lookup commit "committer_name"),
          (plain_at_lookup commit "committer_email")
    by (apply plain_identity_at; assumption).
  rewrite !fmap_is_Some. reflexivity.
Qed.

Lemma plain_callback_returns_iff_witness :
  Foreign.commit_without_names !! "author_name" = None /\
  Foreign.commit_without_names !! "committer_name" = None /\
  fst (Foreign.commit_callback Foreign.commit_without_names) = Foreign.Return tt.
Proof.
  split; [reflexivity|]. split; [reflexivity|].
  apply (proj2 (plain_callback_returns_iff Foreign.commit_without_names
                  (plain_identityb_true Foreign.commit_without_names eq_refl))).
  split; [eexists; reflexivity|].
  split; [discriminate|].
  split; [eexists; reflexivity|].
  discriminate.
Defined.

(** X2. When the identity attributes that are there hold built-in values,
    the only exception the call raises is [AttributeError], for one of the
    four identity attributes, and that attribute is absent from the
    commit. *)
Theorem plain_callback_raises_absent (commit : gmap string Foreign.value)
    (e : Foreign.exn) :
  Foreign.plain_identity commit ->
  fst (Foreign.commit_callback commit) = Foreign.Raise e ->
  exists attr, e = Foreign.AttributeError attr /\
    attr ∈ identity_fields /\ commit !! attr = None.
Proof.
  intros Hplain.
  destruct (foreign_callback_plain commit Hplain) as (-> & _ & _).
  intros (name & -> & Hraise)%lift_outcome_raise.
  apply callback_raises_absent in Hraise as (attr & [= <-] & Hattr & Hnone).
  exists name. split; [reflexivity|]. split; [exact Hattr|].
  rewrite (plain_at_lookup commit name) by (apply plain_identity_at; assumption).
  rewrite Hnone. reflexivity.
Qed.

Lemma plain_callback_raises_absent_witness :
  exists attr,
    Foreign.AttributeError "author_name" = Foreign.AttributeError attr /\
    attr ∈ identity_fields /\
    Foreign.commit_without_author_name !! attr = None.
Proof.
  apply (plain_callback_raises_absent Foreign.commit_without_author_name).
  - apply plain_identityb_true. reflexivity.
  - vm_compute. reflexivity.
Defined.

(** X7. The guards are exact matches on built-in values.  When the
    identity attributes that are there hold built-in values and the call
    changes [author_name] or [author_email], then before the call
    [author_name] held exactly the bytes of [Andrew Hewitt] and
    [author_email] exactly the bytes of [andrew@caramel-code.com], as a
    [bytes] or a [bytearray]: no prefix, no other case, no surrounding
    blank.  Likewise for the committer. *)
Theorem plain_callback_rewrites_exact_match_only
    (commit : gmap string Foreign.value) :
  Foreign.plain_identity commit ->
  let commit' := snd (Foreign.commit_callback commit) in
  (commit' !! "author_name" ≠ commit !! "author_name" \/
   commit' !! "author_email" ≠ commit !! "author_email" ->
   (commit !! "author_name" = Some (Foreign.Plain (PyBytes (b "Andrew Hewitt"))) \/
    commit !! "author_name"
      = Some (Foreign.Plain (PyByteArray (b "Andrew Hewitt")))) /\
   (commit !! "author_email"
      = Some (Foreign.Plain (PyBytes (b "andrew@caramel-code.com"))) \/
    commit !! "author_email"
      = Some (Foreign.Plain (PyByteArray (b "andrew@caramel-code.com"))))) /\
  (commit' !! "committer_name" ≠ commit !! "committer_name" \/
   commit' !! "committer_email" ≠ commit !! "committer_email" ->
   (commit !! "committer_name" = Some (Foreign.Plain (PyBytes (b "Andrew Hewitt"))) \/
    commit !! "committer_name"
      = Some (Foreign.Plain (PyByteArray (b "Andrew Hewitt")))) /\
   (commit !! "committer_email"
      = Some (Foreign.Plain (PyBytes (b "andrew@caramel-code.com"))) \/
    commit !! "committer_email"
      = Some (Foreign.Plain (PyByteArray (b "andrew@caramel-code.com"))))).
Proof.
  intros Hplain commit'. subst commit'.
  destruct identity_fields_elem as (Han & Hae & Hcn & Hce).
  destruct (foreign_callback_identity_field commit _ Hplain Han) as [-> Hn].
  destruct (foreign_callback_identity_field commit _ Hplain Hae) as [-> He].
  destruct (foreign_callback_identity_field commit _ Hplain Hcn) as [-> Hn'].
  destruct (foreign_callback_identity_field commit _ Hplain Hce) as [-> He'].
  rewrite Hn, He, Hn', He'.
  destruct (callback_rewrites_exact_match_only (Foreign.plain_part commit))
    as [Hauthor Hcommitter].
  split; intros Hchanged.
  - destruct Hauthor as [[-> | ->] [-> | ->]]; [|auto..].
    destruct Hchanged as [Hc | Hc]; [left | right];
      intros Heq; apply Hc; rewrite Heq; reflexivity.
  - destruct Hcommitter as [[-> | ->] [-> | ->]]; [|auto..].
    destruct Hchanged as [Hc | Hc]; [left | right];
      intros Heq; apply Hc; rewrite Heq; reflexivity.
Qed.

Lemma plain_callback_rewrites_exact_match_only_witness :
  (Foreign.commit_legacy_author !! "author_name"
     = Some (Foreign.Plain (PyBytes (b "Andrew Hewitt"))) \/
   Foreign.commit_legacy_author !! "author_name"
     = Some (Foreign.Plain (PyByteArray (b "Andrew Hewitt")))) /\
  (Foreign.commit_legacy_author !! "author_email"
     = Some (Foreign.Plain (PyBytes (b "andrew@caramel-code.com"))) \/
   Foreign.commit_legacy_author !! "author_email"
     = Some (Foreign.Plain (PyByteArray (b "andrew@caramel-code.com")))).
Proof.
  apply (proj1 (plain_callback_rewrites_exact_match_only
                  Foreign.commit_legacy_author
                  (plain_identityb_true Foreign.commit_legacy_author eq_refl))).
  left. vm_compute. discriminate.
Defined.
